(** * Fusion retrieval: a shallow embedding of [fusion_retrieval]

    The notebook function [fusion_retrieval] combines a BM25 keyword ranking
    with a vector-store distance ranking:

    - both score arrays are min-max normalised (with [epsilon = 1e-8] in the
      denominator),
    - the normalised arrays are blended as
      [alpha * vector_scores + (1 - alpha) * bm25_scores],
    - the indices are ranked with [np.argsort(...)[::-1]] and the first [k]
      of them are looked up in [all_docs].

    Numbers.  The Python code computes on numpy [float64] arrays.  Scores are
    modelled here as exact rationals ([Q]): every arithmetic operation is the
    exact one, equalities between scores are stated with [==] ([Qeq]), and
    rounding, infinities and NaN are outside the model.  The normalisation is
    also given on binary64 numbers, to evaluate it where rounding decides
    the value.

    Errors.  numpy and Python raise exceptions; the embedding threads them
    through a small error monad ([result]).

    The file then covers the cells around [fusion_retrieval] and the
    deterministic parts of the sibling notebooks: the rerankers
    ([rerank_documents], [CrossEncoderRetriever],
    [FactualRetrievalStrategy]), [crag_process], and the feedback loop
    ([adjust_relevance_scores], [fine_tune_index]).  Language-model chains,
    the search tool and the helpers that live outside the notebooks are
    parameters of the definitions that call them. *)

From Stdlib Require Import String Ascii.
From Stdlib Require Import List Bool Arith ZArith QArith Qminmax Lia Lqa.
From Stdlib Require Import Permutation Sorted.
From Stdlib Require Floats.
Import ListNotations.

Open Scope Q_scope.

(** ** Exceptions and the error monad *)

(** The exceptions the modelled lines can raise. *)
Inductive exception : Type :=
| ValueError_zero_size   (* np.min / np.max of an empty array *)
| ValueError_broadcast   (* operands could not be broadcast together *)
| IndexError.            (* list index out of range *)

Inductive result (A : Type) : Type :=
| Ok (a : A)
| Raise (e : exception).

Arguments Ok {A} a.
Arguments Raise {A} e.

Definition bind {A B : Type} (r : result A) (f : A -> result B) : result B :=
  match r with
  | Ok a => f a
  | Raise e => Raise e
  end.

Notation "x <- r ;; k" := (bind r (fun x => k))
  (at level 61, r at next level, right associativity).

Fixpoint mapM {A B : Type} (f : A -> result B) (l : list A) : result (list B) :=
  match l with
  | [] => Ok []
  | x :: t => y <- f x ;; ys <- mapM f t ;; Ok (y :: ys)
  end.

(** ** Documents and the two collaborators *)

Record Document : Type := mkDocument {
  page_content : string;
  metadata : list (string * string)
}.

(** The vector store, as [fusion_retrieval] uses it: the number of indexed
    vectors ([vectorstore.index.ntotal]) and the two search methods. *)
Record VectorStore : Type := mkVectorStore {
  ntotal : nat;
  similarity_search : string -> nat -> list Document;
  similarity_search_with_score : string -> nat -> list (Document * Q)
}.

(** The BM25 index, as [fusion_retrieval] uses it: [get_scores] returns one
    score per document of the corpus the index was built from. *)
Record BM25Okapi : Type := mkBM25Okapi {
  get_scores : list string -> list Q
}.

(** ** Python and numpy primitives *)

Definition ndarray := list Q.

(** [str.split()] without argument: split on runs of whitespace, no empty
    token.  Strings are byte strings here, and the whitespace is the ASCII
    one; the Unicode spaces Python also splits on are outside the model. *)
Definition isspace (c : ascii) : bool :=
  let n := nat_of_ascii c in
  (Nat.eqb n 32 || (Nat.leb 9 n && Nat.leb n 13) || (Nat.leb 28 n && Nat.leb n 31))%bool.

Definition flush (cur : string) (rest : list string) : list string :=
  match cur with
  | EmptyString => rest
  | _ => cur :: rest
  end.

Fixpoint split_from (cur : string) (s : string) : list string :=
  match s with
  | EmptyString => flush cur []
  | String c r =>
      if isspace c then flush cur (split_from EmptyString r)
      else split_from (cur ++ String c EmptyString) r
  end.

Definition split (s : string) : list string := split_from EmptyString s.

(** [np.min(a)] and [np.max(a)]: a reduction without identity. *)
Definition np_min (a : ndarray) : result Q :=
  match a with
  | [] => Raise ValueError_zero_size
  | x :: t => Ok (fold_left Qmin t x)
  end.

Definition np_max (a : ndarray) : result Q :=
  match a with
  | [] => Raise ValueError_zero_size
  | x :: t => Ok (fold_left Qmax t x)
  end.

(** Array-with-scalar operations. *)
Definition np_sub_scalar (a : ndarray) (c : Q) : ndarray := map (fun x => x - c) a.
Definition np_div_scalar (a : ndarray) (c : Q) : ndarray := map (fun x => x / c) a.
Definition np_scalar_sub (c : Q) (a : ndarray) : ndarray := map (fun x => c - x) a.
Definition np_scalar_mul (c : Q) (a : ndarray) : ndarray := map (fun x => c * x) a.

Fixpoint zip_with (f : Q -> Q -> Q) (a b : ndarray) : ndarray :=
  match a, b with
  | x :: a', y :: b' => f x y :: zip_with f a' b'
  | _, _ => []
  end.

(** [a + b] on one-dimensional arrays, with numpy's broadcasting rule: the
    lengths must be equal, or one of them must be 1. *)
Definition np_add (a b : ndarray) : result ndarray :=
  if Nat.eqb (length a) (length b) then Ok (zip_with Qplus a b)
  else match a, b with
       | [x], _ => Ok (map (fun y => x + y) b)
       | _, [y] => Ok (map (fun x => x + y) a)
       | _, _ => Raise ValueError_broadcast
       end.

(** A stable ascending sort of scored items: an item goes before the first
    item whose score is not smaller, so equal scores keep their input order. *)
Fixpoint insert_by_score {A : Type} (p : A * Q) (l : list (A * Q)) : list (A * Q) :=
  match l with
  | [] => [p]
  | q :: t => if Qle_bool (snd p) (snd q) then p :: q :: t
              else q :: insert_by_score p t
  end.

Fixpoint sort_by_score {A : Type} (l : list (A * Q)) : list (A * Q) :=
  match l with
  | [] => []
  | p :: t => insert_by_score p (sort_by_score t)
  end.

Definition enumerate (a : ndarray) : list (nat * Q) :=
  combine (seq 0 (length a)) a.

(** [np.argsort(a)]: the indices that sort [a] in ascending order.  numpy's
    default sort gives no promise on the order of equal values; this
    executable model takes the stable order.  Statements that speak of the
    order of equal scores are made for every sort that meets numpy's promise
    ([argsort_contract] below), not for this one. *)
Definition argsort (a : ndarray) : list nat :=
  map fst (sort_by_score (enumerate a)).

(** [l[:k]] for a Python integer [k]: a negative [k] counts from the end. *)
Definition slice_to {A : Type} (l : list A) (k : Z) : list A :=
  if (0 <=? k)%Z then firstn (Z.to_nat k) l
  else firstn (length l - Z.to_nat (- k)) l.

(** [l[i]] for a non-negative index. *)
Definition getitem {A : Type} (l : list A) (i : nat) : result A :=
  match nth_error l i with
  | Some x => Ok x
  | None => Raise IndexError
  end.

(** ** The steps of [fusion_retrieval] *)

Definition epsilon : Q := 1 # 100000000.

(** Step 4, vector scores (distances, smaller is better):
    [1 - (s - np.min(s)) / (np.max(s) - np.min(s) + epsilon)]. *)
Definition normalize_distance (s : ndarray) : result ndarray :=
  lo <- np_min s ;;
  hi <- np_max s ;;
  lo' <- np_min s ;;
  Ok (np_scalar_sub 1 (np_div_scalar (np_sub_scalar s lo) (hi - lo' + epsilon))).

(** Step 4, BM25 scores (larger is better):
    [(s - np.min(s)) / (np.max(s) - np.min(s) + epsilon)]. *)
Definition normalize_similarity (s : ndarray) : result ndarray :=
  lo <- np_min s ;;
  hi <- np_max s ;;
  lo' <- np_min s ;;
  Ok (np_div_scalar (np_sub_scalar s lo) (hi - lo' + epsilon)).

(** Step 5: [alpha * vector_scores + (1 - alpha) * bm25_scores]. *)
Definition combine_scores (alpha : Q) (vector_scores bm25_scores : ndarray)
  : result ndarray :=
  np_add (np_scalar_mul alpha vector_scores) (np_scalar_mul (1 - alpha) bm25_scores).

(** Step 6 and the slice of step 7:
    [np.argsort(combined_scores)[::-1]] and [sorted_indices[:k]]. *)
Definition sorted_indices (combined_scores : ndarray) : list nat :=
  rev (argsort combined_scores).

Definition top_indices (combined_scores : ndarray) (k : Z) : list nat :=
  slice_to (sorted_indices combined_scores) k.

(** Steps 5 to 7 on already normalised scores. *)
Definition fusion_rank (all_docs : list Document) (vector_scores bm25_scores : ndarray)
    (k : Z) (alpha : Q) : result (list Document) :=
  combined_scores <- combine_scores alpha vector_scores bm25_scores ;;
  mapM (getitem all_docs) (top_indices combined_scores k).

(** The whole function. *)
Definition fusion_retrieval (vectorstore : VectorStore) (bm25 : BM25Okapi)
    (query : string) (k : Z) (alpha : Q) : result (list Document) :=
  let all_docs := similarity_search vectorstore EmptyString (ntotal vectorstore) in
  let bm25_scores := get_scores bm25 (split query) in
  let vector_results :=
    similarity_search_with_score vectorstore query (length all_docs) in
  let vector_scores := map snd vector_results in
  vector_scores <- normalize_distance vector_scores ;;
  bm25_scores <- normalize_similarity bm25_scores ;;
  fusion_rank all_docs vector_scores bm25_scores k alpha.

(** The defaults of the signature: [k = 5], [alpha = 0.5]. *)
Definition default_k : Z := 5%Z.
Definition default_alpha : Q := 1 # 2.

(** ** The surrounding cells: index construction *)

(** [create_bm25_index]: every document is tokenised with [split] and the
    list is handed to [BM25Okapi].  The BM25 formula itself belongs to the
    [rank_bm25] package and is the parameter [okapi] (corpus, query tokens,
    document tokens); [get_scores] scores the corpus in its own order. *)
Definition create_bm25_index
    (okapi : list (list string) -> list string -> list string -> Q)
    (documents : list Document) : BM25Okapi :=
  let tokenized_docs := map (fun doc => split (page_content doc)) documents in
  mkBM25Okapi (fun query_tokens => map (okapi tokenized_docs query_tokens) tokenized_docs).

(** A FAISS flat index over [documents]: a search returns the [k] nearest
    documents, nearest first, each with its distance.  The embedding model is
    external, so the distance of every indexed document to a query is the
    table [distance] (in corpus order). *)
Definition faiss_search (documents : list Document) (distance : string -> list Q)
    (query : string) (k : nat) : list (Document * Q) :=
  firstn k (sort_by_score (combine documents (distance query))).

Definition faiss_store (documents : list Document) (distance : string -> list Q)
  : VectorStore :=
  mkVectorStore (length documents)
    (fun query k => map fst (faiss_search documents distance query k))
    (faiss_search documents distance).

(** ** What the statements talk about *)

(** The score of index [i] in an array (0 outside of it). *)
Definition score (a : ndarray) (i : nat) : Q := nth i a 0.

Definition is_min (m : Q) (s : ndarray) : Prop :=
  In m s /\ forall x, In x s -> m <= x.

Definition is_max (m : Q) (s : ndarray) : Prop :=
  In m s /\ forall x, In x s -> x <= m.

(** The normalisation formulas in the words of the specification. *)
Definition normalized_value (higherIsBetter : bool) (lo hi x : Q) : Q :=
  if higherIsBetter then (x - lo) / (hi - lo + (1 # 100000000))
  else 1 - (x - lo) / (hi - lo + (1 # 100000000)).

(** [i] is ranked before [j]: a larger combined score first, and among equal
    scores the larger index first. *)
Definition ranks_before (c : ndarray) (i j : nat) : Prop :=
  score c j < score c i \/ (score c j == score c i /\ (j < i)%nat).

(** The length of [l[:k]] for a list of [n] items. *)
Definition slice_length (n : nat) (k : Z) : nat :=
  if (0 <=? k)%Z then Nat.min (Z.to_nat k) n else n - Z.to_nat (- k).

(** The order [sort_by_score] produces on indexed scores: ascending score,
    and ascending index among equal scores. *)
Definition ascending (p q : nat * Q) : Prop :=
  snd p < snd q \/ (snd p == snd q /\ (fst p < fst q)%nat).

(** Step 1 of [fusion_retrieval]: the documents the ranked indices are
    looked up in. *)
Definition all_docs_of (vectorstore : VectorStore) : list Document :=
  similarity_search vectorstore EmptyString (ntotal vectorstore).

(** The three sequences of one call have [n] entries each: the documents of
    step 1, the BM25 scores of step 2 and the scored results of step 3. *)
Definition same_lengths (vectorstore : VectorStore) (bm25 : BM25Okapi)
    (query : string) (n : nat) : Prop :=
  length (all_docs_of vectorstore) = n /\
  length (get_scores bm25 (split query)) = n /\
  length (similarity_search_with_score vectorstore query n) = n.

(** ** Example corpora *)

(** Three indexed chunks, a keyword scorer standing in for the BM25 formula
    (the number of query tokens that occur in the document) and a table of
    embedding distances: the distances of the three chunks to the empty query
    and to any other query. *)
Definition solar : Document := mkDocument "solar panels" [].
Definition turbines : Document := mkDocument "wind turbines" [].
Definition rain : Document := mkDocument "wind and rain" [].

Definition example_docs : list Document := [solar; turbines; rain].

Definition token_overlap (corpus : list (list string))
    (query_tokens doc_tokens : list string) : Q :=
  inject_Z (Z.of_nat (length
    (filter (fun t => existsb (String.eqb t) doc_tokens) query_tokens))).

Definition example_distance (query : string) : list Q :=
  if String.eqb query EmptyString then [1 # 2; 3 # 5; 2 # 5]
  else [9 # 10; 1 # 10; 1 # 2].

Definition example_store : VectorStore := faiss_store example_docs example_distance.
Definition example_bm25 : BM25Okapi := create_bm25_index token_overlap example_docs.

(** Four chunks behind a store that answers every search in corpus order,
    with the lexical scores and the distances of the specification's
    scenario. *)
Definition scenario_docs : list Document :=
  [mkDocument "doc0" []; mkDocument "doc1" []; mkDocument "doc2" [];
   mkDocument "doc3" []].

Definition scenario_store : VectorStore :=
  mkVectorStore 4
    (fun _ k => firstn k scenario_docs)
    (fun _ k => firstn k (combine scenario_docs [1 # 10; 1 # 2; 1 # 20; 9 # 10])).

Definition scenario_bm25 : BM25Okapi := mkBM25Okapi (fun _ => [0; 2; 4; 2]).

(** A store over one chunk next to a BM25 index over two. *)
Definition short_store : VectorStore := faiss_store [solar] (fun _ => [1 # 2]).
Definition long_bm25 : BM25Okapi := create_bm25_index token_overlap [turbines; solar].

(** ** The reranking notebook *)

(** [sorted(items, key=lambda x: x[1], reverse=True)]: descending keys, and
    stable as every Python sort is: items with equal keys keep their input
    order.  An item goes before the first item whose key is not larger. *)
Fixpoint insert_reverse {A : Type} (p : A * Q) (l : list (A * Q)) : list (A * Q) :=
  match l with
  | [] => [p]
  | q :: t => if Qle_bool (snd q) (snd p) then p :: q :: t
              else q :: insert_reverse p t
  end.

Fixpoint sorted_reverse {A : Type} (l : list (A * Q)) : list (A * Q) :=
  match l with
  | [] => []
  | p :: t => insert_reverse p (sorted_reverse t)
  end.

(** [rerank_documents].  The structured-output chain
    [llm_chain.invoke(...).relevance_score] is the parameter
    [relevance_score] (query, document text); its value is a float already,
    so the [float(score)] of the loop cannot raise. *)
Definition rerank_documents (relevance_score : string -> string -> Q)
    (query : string) (docs : list Document) (top_n : Z) : list Document :=
  let scored_docs :=
    map (fun doc => (doc, relevance_score query (page_content doc))) docs in
  let reranked_docs := sorted_reverse scored_docs in
  map fst (slice_to reranked_docs top_n).

(** [CrossEncoderRetriever]: the store, the cross-encoder's [predict] and
    the two counts. *)
Record CrossEncoderRetriever : Type := mkCrossEncoderRetriever {
  ce_vectorstore : VectorStore;
  cross_encoder_predict : list (string * string) -> list Q;
  ce_k : nat;
  rerank_top_k : Z
}.

(** [CrossEncoderRetriever.get_relevant_documents]; [zip] stops at the
    shorter of its two arguments. *)
Definition cross_encoder_get_relevant_documents (self : CrossEncoderRetriever)
    (query : string) : list Document :=
  let initial_docs := similarity_search (ce_vectorstore self) query (ce_k self) in
  let pairs := map (fun doc => (query, page_content doc)) initial_docs in
  let scores := cross_encoder_predict self pairs in
  let scored_docs := sorted_reverse (combine initial_docs scores) in
  map fst (slice_to scored_docs (rerank_top_k self)).

(** Descending score, and ascending position among equal scores. *)
Definition descending_by {A : Type} (position : A -> nat) (p q : A * Q) : Prop :=
  snd q < snd p \/ (snd q == snd p /\ (position (fst p) < position (fst q))%nat).

(** The two lists [CrossEncoderRetriever.get_relevant_documents] zips. *)
Definition ce_initial_docs (self : CrossEncoderRetriever) (query : string)
  : list Document :=
  similarity_search (ce_vectorstore self) query (ce_k self).

Definition ce_scores (self : CrossEncoderRetriever) (query : string) : list Q :=
  cross_encoder_predict self
    (map (fun doc => (query, page_content doc)) (ce_initial_docs self query)).

(** [i] is reranked before [j]: a larger score first, and among equal scores
    the smaller input position first. *)
Definition reranks_before (scores : list Q) (i j : nat) : Prop :=
  score scores j < score scores i \/
  (score scores j == score scores i /\ (i < j)%nat).

(** What a reranked selection of [docs] by [scores] is: documents taken at
    pairwise different positions, best score first, ties in input order. *)
Definition reranked_selection {A : Type} (docs : list A) (scores : list Q)
    (count : nat) (selected : list A) : Prop :=
  exists positions,
    length selected = count /\
    NoDup positions /\
    Forall2 (fun i d => nth_error docs i = Some d) positions selected /\
    StronglySorted (reranks_before scores) positions.

(** ** The corrective-RAG notebook *)

(** The exceptions of the plain Python operations used there, with their
    own error monad. *)
Inductive py_exception : Type :=
| ValueError_max_empty      (* max() arg is an empty sequence *)
| ValueError_not_in_list    (* list.index(x): x not in list *)
| IndexError_list           (* list index out of range *)
| KeyError (key : string).  (* dict[key] without the key *)

Inductive outcome (A : Type) : Type :=
| Returns (a : A)
| Throws (e : py_exception).

Arguments Returns {A} a.
Arguments Throws {A} e.

Definition and_then {A B : Type} (r : outcome A) (f : A -> outcome B) : outcome B :=
  match r with
  | Returns a => f a
  | Throws e => Throws e
  end.

Notation "x <-- r ;; k" := (and_then r (fun x => k))
  (at level 61, r at next level, right associativity).

(** [max(l)]: the first greatest item; an item replaces the current maximum
    only when it is greater. *)
Definition py_max (l : list Q) : outcome Q :=
  match l with
  | [] => Throws ValueError_max_empty
  | x :: t => Returns (fold_left (fun m y => if Qle_bool y m then m else y) t x)
  end.

(** [l.index(x)]: the position of the first item equal to [x]. *)
Fixpoint list_index (l : list Q) (x : Q) : outcome nat :=
  match l with
  | [] => Throws ValueError_not_in_list
  | y :: t => if Qeq_bool y x then Returns 0%nat
              else i <-- list_index t x ;; Returns (S i)
  end.

Definition list_getitem {A : Type} (l : list A) (i : nat) : outcome A :=
  match nth_error l i with
  | Some x => Returns x
  | None => Throws IndexError_list
  end.

(** The knowledge handed to [generate_response]: the text of a document or
    a joined text on two branches of [crag_process], the list of key points
    of the web search on the third. *)
Inductive knowledge : Type :=
| Text (s : string)
| Points (l : list string).

(** The functions of the notebook that only wrap a language-model chain, the
    search tool ([search.run]) and the JSON parser of the search results.
    They are total functions here: what a chain, the tool or
    [parse_search_results] may raise (the parser catches JSONDecodeError only)
    is outside the model, and no statement below says that a call which
    reaches them returns. *)
Record CragServices : Type := mkCragServices {
  retrieval_evaluator : string -> string -> Q;
  knowledge_refinement : string -> list string;
  rewrite_query : string -> string;
  search_run : string -> string;
  parse_search_results : string -> list (string * string);
  generate_response : string -> knowledge -> list (string * string) -> string
}.

Definition retrieve_documents (query : string) (faiss_index : VectorStore) (k : nat)
  : list string :=
  let docs := similarity_search faiss_index query k in
  map page_content docs.

Definition evaluate_documents (services : CragServices) (query : string)
    (documents : list string) : list Q :=
  map (fun doc => retrieval_evaluator services query doc) documents.

Definition perform_web_search (services : CragServices) (query : string)
  : list string * list (string * string) :=
  let rewritten_query := rewrite_query services query in
  let web_results := search_run services rewritten_query in
  let web_knowledge := knowledge_refinement services web_results in
  let sources := parse_search_results services web_results in
  (web_knowledge, sources).

Definition newline : string := String (ascii_of_nat 10) EmptyString.

Definition retrieved_source : string * string := ("Retrieved document"%string, EmptyString).

(** [crag_process], without its [print] calls. *)
Definition crag_process (services : CragServices) (query : string)
    (faiss_index : VectorStore) : outcome string :=
  let retrieved_docs := retrieve_documents query faiss_index 3 in
  let eval_scores := evaluate_documents services query retrieved_docs in
  max_score <-- py_max eval_scores ;;
  if negb (Qle_bool max_score (7 # 10)) then
    i <-- list_index eval_scores max_score ;;
    best_doc <-- list_getitem retrieved_docs i ;;
    Returns (generate_response services query (Text best_doc) [retrieved_source])
  else if negb (Qle_bool (3 # 10) max_score) then
    let (final_knowledge, sources) := perform_web_search services query in
    Returns (generate_response services query (Points final_knowledge) sources)
  else
    i <-- list_index eval_scores max_score ;;
    best_doc <-- list_getitem retrieved_docs i ;;
    let retrieved_knowledge := knowledge_refinement services best_doc in
    let (web_knowledge, web_sources) := perform_web_search services query in
    let final_knowledge := String.concat newline (retrieved_knowledge ++ web_knowledge) in
    Returns (generate_response services query (Text final_knowledge)
               (retrieved_source :: web_sources)).


(** ** The feedback-loop notebook *)

(** The dictionary [get_user_feedback] returns: five fixed keys. *)
Record Feedback : Type := mkFeedback {
  fb_query : string;
  fb_response : string;
  fb_relevance : Z;
  fb_quality : Z;
  fb_comments : string
}.

Definition get_user_feedback (query response : string) (relevance quality : Z)
    (comments : string) : Feedback :=
  mkFeedback query response relevance quality comments.

(** A retrieved document whose metadata carries numbers; only the key
    "relevance_score" is read and written. *)
Record RatedDocument : Type := mkRatedDocument {
  rated_page_content : string;
  rated_metadata : list (string * Q)
}.

(** [d[key]] and [d[key] = v] on a dictionary kept as an association list
    with one entry per key. *)
Fixpoint dict_get (d : list (string * Q)) (key : string) : outcome Q :=
  match d with
  | [] => Throws (KeyError key)
  | (k, v) :: t => if String.eqb k key then Returns v else dict_get t key
  end.

Fixpoint dict_set (d : list (string * Q)) (key : string) (v : Q) : list (string * Q) :=
  match d with
  | [] => [(key, v)]
  | (k, v') :: t => if String.eqb k key then (k, v) :: t
                    else (k, v') :: dict_set t key v
  end.

Fixpoint for_each {A B : Type} (f : A -> outcome B) (l : list A) : outcome (list B) :=
  match l with
  | [] => Returns []
  | x :: t => y <-- f x ;; ys <-- for_each f t ;; Returns (y :: ys)
  end.

Definition relevance_key : string := "relevance_score".

(** The feedback entries the chain declares relevant to a document: the
    answer is compared with the lower-case string "yes". *)
Definition relevant_feedback_for
    (relevance_chain : string -> string -> string -> string -> string)
    (query : string) (doc : RatedDocument) (feedback_data : list Feedback)
  : list Feedback :=
  filter (fun feedback =>
            String.eqb
              (relevance_chain query (fb_query feedback)
                 (substring 0 1000 (rated_page_content doc)) (fb_response feedback))
              "yes")
         feedback_data.

(** [sum(f['relevance'] for f in relevant_feedback) / len(relevant_feedback)]. *)
Definition avg_relevance (relevant_feedback : list Feedback) : Q :=
  inject_Z (fold_left Z.add (map fb_relevance relevant_feedback) 0%Z)
  / inject_Z (Z.of_nat (length relevant_feedback)).

(** The body of the loop over [docs]. *)
Definition adjust_document
    (relevance_chain : string -> string -> string -> string -> string)
    (query : string) (feedback_data : list Feedback) (doc : RatedDocument)
  : outcome RatedDocument :=
  let relevant_feedback := relevant_feedback_for relevance_chain query doc feedback_data in
  match relevant_feedback with
  | [] => Returns doc
  | _ :: _ =>
      old <-- dict_get (rated_metadata doc) relevance_key ;;
      Returns (mkRatedDocument (rated_page_content doc)
                 (dict_set (rated_metadata doc) relevance_key
                    (old * (avg_relevance relevant_feedback / 3))))
  end.

(** [adjust_relevance_scores]: the loop, then
    [sorted(docs, key=lambda x: x.metadata['relevance_score'], reverse=True)]. *)
Definition adjust_relevance_scores
    (relevance_chain : string -> string -> string -> string -> string)
    (query : string) (docs : list RatedDocument) (feedback_data : list Feedback)
  : outcome (list RatedDocument) :=
  adjusted <-- for_each (adjust_document relevance_chain query feedback_data) docs ;;
  keys <-- for_each (fun doc => dict_get (rated_metadata doc) relevance_key) adjusted ;;
  Returns (map fst (sorted_reverse (combine adjusted keys))).

(** The relevance score of a document that has one (0 otherwise). *)
Definition relevance_of (doc : RatedDocument) : Q :=
  match dict_get (rated_metadata doc) relevance_key with
  | Returns v => v
  | Throws _ => 0
  end.

(** [fine_tune_index]: the text handed to [encode_from_string], which is a
    helper outside the notebook and the parameter [encode_from_string]. *)
Definition space : string := " ".

Definition fine_tune_texts (feedback_data : list Feedback) (texts : string) : string :=
  let good_responses :=
    filter (fun f => (4 <=? fb_relevance f)%Z && (4 <=? fb_quality f)%Z)
           feedback_data in
  let additional_texts :=
    map (fun f => fb_query f ++ space ++ fb_response f)%string good_responses in
  let additional_texts := String.concat space additional_texts in
  (texts ++ additional_texts)%string.

Definition fine_tune_index {Index : Type} (encode_from_string : string -> Index)
    (feedback_data : list Feedback) (texts : string) : Index :=
  encode_from_string (fine_tune_texts feedback_data texts).

(** Example documents and feedback for the feedback loop. *)
Definition rated_a : RatedDocument :=
  mkRatedDocument "greenhouse gases" [("page", 1); ("relevance_score", 1 # 2)]%string.
Definition rated_b : RatedDocument :=
  mkRatedDocument "ocean currents" [("relevance_score", 3 # 4)]%string.
Definition rated_c : RatedDocument :=
  mkRatedDocument "no score" [("page", 2)]%string.
Definition praise : Feedback :=
  get_user_feedback "What is the greenhouse effect?" "It traps heat." 5 5 EmptyString.

(** ** The cells around [fusion_retrieval] *)

(** [encode_pdf_and_get_split_documents].  The PDF loader, the text splitter,
    [replace_t_with_space] and the embedding model (here the table of
    distances of the indexed chunks to a query) come from outside the
    notebook and are parameters.  The store is built from the cleaned chunks,
    which are returned with it. *)
Definition encode_pdf_and_get_split_documents
    (load : string -> list Document)
    (split_documents : nat -> nat -> list Document -> list Document)
    (replace_t_with_space : list Document -> list Document)
    (distance : list Document -> string -> list Q)
    (path : string) (chunk_size chunk_overlap : nat)
  : VectorStore * list Document :=
  let documents := load path in
  let texts := split_documents chunk_size chunk_overlap documents in
  let cleaned_texts := replace_t_with_space texts in
  let vectorstore := faiss_store cleaned_texts (distance cleaned_texts) in
  (vectorstore, cleaned_texts).

(** ** The adaptive-retrieval notebook *)

(** [FactualRetrievalStrategy.retrieve]: the query is rewritten by a chain
    ([enhance]), [2 * k] candidates are retrieved for the rewritten query,
    scored by a second chain ([ranking_score]) and sorted in place with
    [reverse=True]; the first [k] are returned. *)
Definition factual_retrieve (enhance : string -> string)
    (ranking_score : string -> string -> Q) (db : VectorStore)
    (query : string) (k : nat) : list Document :=
  let enhanced_query := enhance query in
  let docs := similarity_search db enhanced_query (k * 2) in
  let ranked_docs :=
    map (fun doc => (doc, ranking_score enhanced_query (page_content doc))) docs in
  let ranked_docs := sorted_reverse ranked_docs in
  map fst (slice_to ranked_docs (Z.of_nat k)).

(** ** The ranking step for any sort numpy may run *)

(** What numpy promises of [np.argsort]: the result is a permutation of the
    indices and puts the values in ascending order.  Nothing is promised on
    the order of equal values. *)
Definition argsort_contract (np_argsort : ndarray -> list nat) : Prop :=
  forall a,
    Permutation (np_argsort a) (seq 0 (length a)) /\
    StronglySorted (fun i j => score a i <= score a j) (np_argsort a).

(** Steps 5 to 7 with the sort as a parameter; [fusion_rank] is the instance
    at [argsort]. *)
Definition top_indices_with (np_argsort : ndarray -> list nat)
    (combined_scores : ndarray) (k : Z) : list nat :=
  slice_to (rev (np_argsort combined_scores)) k.

Definition fusion_rank_with (np_argsort : ndarray -> list nat)
    (all_docs : list Document) (vector_scores bm25_scores : ndarray)
    (k : Z) (alpha : Q) : result (list Document) :=
  combined_scores <- combine_scores alpha vector_scores bm25_scores ;;
  mapM (getitem all_docs) (top_indices_with np_argsort combined_scores k).

(** A sort with the other order of equal values: descending index. *)
Definition argsort_ties_descending (a : ndarray) : list nat :=
  rev (argsort (map Qopp a)).

(** ** The normalisation in binary64 *)








(** ** Lemmas on the primitives *)

Lemma fold_min_le (t : list Q) : forall x, fold_left Qmin t x <= x.
Proof.
  induction t as [|y t IH]; intro x; simpl.
  - apply Qle_refl.
  - eapply Qle_trans; [apply IH | apply Q.le_min_l].
Qed.

Lemma fold_min_lower (t : list Q) :
  forall x y, In y t -> fold_left Qmin t x <= y.
Proof.
  induction t as [|z t IH]; intros x y Hin; simpl in *.
  - contradiction.
  - destruct Hin as [-> | Hin].
    + eapply Qle_trans; [apply fold_min_le | apply Q.le_min_r].
    + now apply IH.
Qed.

Lemma Qmin_cases (x y : Q) : Qmin x y = x \/ Qmin x y = y.
Proof.
  unfold Qmin, GenericMinMax.gmin. destruct (x ?= y); auto.
Qed.

Lemma Qmax_cases (x y : Q) : Qmax x y = x \/ Qmax x y = y.
Proof.
  unfold Qmax, GenericMinMax.gmax. destruct (x ?= y); auto.
Qed.

Lemma fold_min_in (t : list Q) :
  forall x, In (fold_left Qmin t x) (x :: t).
Proof.
  induction t as [|y t IH]; intro x; simpl.
  - now left.
  - destruct (IH (Qmin x y)) as [H | H].
    + rewrite <- H. destruct (Qmin_cases x y) as [-> | ->]; auto.
    + right. now right.
Qed.

Lemma fold_max_ge (t : list Q) : forall x, x <= fold_left Qmax t x.
Proof.
  induction t as [|y t IH]; intro x; simpl.
  - apply Qle_refl.
  - eapply Qle_trans; [apply Q.le_max_l | apply IH].
Qed.

Lemma fold_max_upper (t : list Q) :
  forall x y, In y t -> y <= fold_left Qmax t x.
Proof.
  induction t as [|z t IH]; intros x y Hin; simpl in *.
  - contradiction.
  - destruct Hin as [-> | Hin].
    + eapply Qle_trans; [apply Q.le_max_r | apply fold_max_ge].
    + now apply IH.
Qed.

Lemma fold_max_in (t : list Q) :
  forall x, In (fold_left Qmax t x) (x :: t).
Proof.
  induction t as [|y t IH]; intro x; simpl.
  - now left.
  - destruct (IH (Qmax x y)) as [H | H].
    + rewrite <- H. destruct (Qmax_cases x y) as [-> | ->]; auto.
    + right. now right.
Qed.

Lemma np_min_spec (s : ndarray) :
  s <> [] -> exists lo, np_min s = Ok lo /\ is_min lo s.
Proof.
  destruct s as [|x t]; [congruence | intros _].
  exists (fold_left Qmin t x). split; [reflexivity | split].
  - apply fold_min_in.
  - intros y [<- | Hin]; [apply fold_min_le | now apply fold_min_lower].
Qed.

Lemma np_max_spec (s : ndarray) :
  s <> [] -> exists hi, np_max s = Ok hi /\ is_max hi s.
Proof.
  destruct s as [|x t]; [congruence | intros _].
  exists (fold_left Qmax t x). split; [reflexivity | split].
  - apply fold_max_in.
  - intros y [<- | Hin]; [apply fold_max_ge | now apply fold_max_upper].
Qed.

Lemma epsilon_pos : 0 < epsilon.
Proof. reflexivity. Qed.

(** Both normalisations, unfolded for a non-empty array. *)
Lemma normalize_unfold (s : ndarray) :
  s <> [] ->
  exists lo hi, is_min lo s /\ is_max hi s /\
    normalize_similarity s = Ok (map (fun x => (x - lo) / (hi - lo + epsilon)) s) /\
    normalize_distance s = Ok (map (fun x => 1 - (x - lo) / (hi - lo + epsilon)) s).
Proof.
  intro Hne.
  destruct (np_min_spec s Hne) as (lo & Hlo & Hmin).
  destruct (np_max_spec s Hne) as (hi & Hhi & Hmax).
  exists lo, hi. repeat split; try apply Hmin; try apply Hmax.
  - unfold normalize_similarity. rewrite Hlo, Hhi. simpl.
    unfold np_div_scalar, np_sub_scalar.
    now rewrite map_map.
  - unfold normalize_distance. rewrite Hlo, Hhi. simpl.
    unfold np_scalar_sub, np_div_scalar, np_sub_scalar.
    now rewrite !map_map.
Qed.

Lemma nth_map_score (f : Q -> Q) (s : ndarray) (i : nat) :
  (i < length s)%nat -> nth i (map f s) 0 = f (nth i s 0).
Proof.
  intro Hi. rewrite (nth_indep _ 0 (f 0)) by now rewrite length_map.
  apply map_nth.
Qed.


Lemma combine_scores_aligned (alpha : Q) (v b : ndarray) :
  length v = length b ->
  combine_scores alpha v b =
  Ok (zip_with Qplus (np_scalar_mul alpha v) (np_scalar_mul (1 - alpha) b)).
Proof.
  intro Hlen. unfold combine_scores, np_add, np_scalar_mul.
  rewrite !length_map, Hlen, Nat.eqb_refl. reflexivity.
Qed.

Lemma zip_with_length (f : Q -> Q -> Q) (a : ndarray) :
  forall b, length a = length b -> length (zip_with f a b) = length a.
Proof.
  induction a as [|x a IH]; intros [|y b] Hlen; simpl in *; try congruence.
  f_equal. apply IH. congruence.
Qed.



(** ** Normalisation *)

(** C2.  For a score array of length at least 1, [normalize_similarity]
    (the "higher is better" branch) returns [(s[i] - min) / (max - min + 1e-8)]
    at every index and [normalize_distance] returns one minus that value,
    where [min] and [max] are the least and the greatest element of the array;
    both results are new arrays of the length of the input, with the value of
    index [i] computed from the input's value at index [i]. *)
Theorem normalization_formula (s : ndarray) :
  s <> [] ->
  exists lo hi sim dist,
    is_min lo s /\ is_max hi s /\
    normalize_similarity s = Ok sim /\ normalize_distance s = Ok dist /\
    length sim = length s /\ length dist = length s /\
    forall i, (i < length s)%nat ->
      nth i sim 0 = normalized_value true lo hi (nth i s 0) /\
      nth i dist 0 = normalized_value false lo hi (nth i s 0).
Proof.
  intro Hne.
  destruct (normalize_unfold s Hne) as (lo & hi & Hmin & Hmax & Hsim & Hdist).
  exists lo, hi.
  exists (map (fun x => (x - lo) / (hi - lo + epsilon)) s).
  exists (map (fun x => 1 - (x - lo) / (hi - lo + epsilon)) s).
  repeat split; try apply Hmin; try apply Hmax; try assumption.
  - now rewrite length_map.
  - now rewrite length_map.
  - now rewrite nth_map_score.
  - now rewrite nth_map_score.
Qed.

Lemma normalization_formula_witness :
  exists lo hi sim dist,
    is_min lo [3; 1; 2] /\ is_max hi [3; 1; 2] /\
    normalize_similarity [3; 1; 2] = Ok sim /\
    normalize_distance [3; 1; 2] = Ok dist /\
    length sim = 3%nat /\ length dist = 3%nat /\
    forall i, (i < 3)%nat ->
      nth i sim 0 = normalized_value true lo hi (nth i [3; 1; 2] 0) /\
      nth i dist 0 = normalized_value false lo hi (nth i [3; 1; 2] 0).
Proof.
  apply (normalization_formula [3; 1; 2]). discriminate.
Defined.

(** C3.  When all values of a non-empty score array are the same (a single
    value included), every value of the "higher is better" normalisation is 0
    and every value of the distance normalisation is 1. *)
Theorem degenerate_normalization (s : ndarray) (c : Q) :
  s <> [] -> Forall (fun x => x == c) s ->
  exists sim dist,
    normalize_similarity s = Ok sim /\ normalize_distance s = Ok dist /\
    length sim = length s /\ length dist = length s /\
    Forall (fun y => y == 0) sim /\ Forall (fun y => y == 1) dist.
Proof.
  intros Hne Hall.
  destruct (normalize_unfold s Hne) as (lo & hi & [Hlo _] & _ & Hsim & Hdist).
  rewrite Forall_forall in Hall.
  assert (Hzero : forall x, In x s -> (x - lo) / (hi - lo + epsilon) == 0).
  { intros x Hx. assert (E : x - lo == 0).
    { rewrite (Hall x Hx), (Hall lo Hlo). ring. }
    unfold Qdiv. rewrite E. ring. }
  exists (map (fun x => (x - lo) / (hi - lo + epsilon)) s).
  exists (map (fun x => 1 - (x - lo) / (hi - lo + epsilon)) s).
  repeat split; try assumption.
  - now rewrite length_map.
  - now rewrite length_map.
  - apply Forall_map, Forall_forall. exact Hzero.
  - apply Forall_map, Forall_forall. intros x Hx.
    rewrite (Hzero x Hx). ring.
Qed.

Lemma degenerate_normalization_witness :
  exists sim dist,
    normalize_similarity [7 # 2] = Ok sim /\ normalize_distance [7 # 2] = Ok dist /\
    length sim = 1%nat /\ length dist = 1%nat /\
    Forall (fun y => y == 0) sim /\ Forall (fun y => y == 1) dist.
Proof.
  apply (degenerate_normalization [7 # 2] (7 # 2)).
  - discriminate.
  - repeat constructor.
Defined.

(** C7.  Normalisation raises exactly when the array is empty (numpy's
    ValueError for the reduction of a zero-size array), and returns an array
    for every array of length at least 1; [fusion_retrieval] over a store
    that returns no scored document raises that error. *)
Theorem normalization_error_condition (s : ndarray) :
  (length s = 0%nat ->
     normalize_similarity s = Raise ValueError_zero_size /\
     normalize_distance s = Raise ValueError_zero_size) /\
  ((1 <= length s)%nat ->
     exists sim dist,
       normalize_similarity s = Ok sim /\ normalize_distance s = Ok dist) /\
  (forall vectorstore bm25 query k alpha,
     similarity_search_with_score vectorstore query
       (length (similarity_search vectorstore EmptyString (ntotal vectorstore))) = [] ->
     fusion_retrieval vectorstore bm25 query k alpha = Raise ValueError_zero_size).
Proof.
  repeat split.
  - destruct s; [reflexivity | discriminate].
  - destruct s; [reflexivity | discriminate].
  - intro Hlen.
    assert (Hne : s <> []) by (destruct s; [simpl in Hlen; lia | discriminate]).
    destruct (normalize_unfold s Hne) as (lo & hi & _ & _ & Hsim & Hdist).
    eauto.
  - intros vectorstore bm25 query k alpha Hempty.
    unfold fusion_retrieval. rewrite Hempty. reflexivity.
Qed.

Lemma normalization_error_condition_witness :
  (normalize_similarity [] = Raise ValueError_zero_size /\
   normalize_distance [] = Raise ValueError_zero_size) /\
  (exists sim dist,
     normalize_similarity [1; 5] = Ok sim /\ normalize_distance [1; 5] = Ok dist).
Proof.
  split.
  - apply (normalization_error_condition []). reflexivity.
  - apply (normalization_error_condition [1; 5]). simpl. lia.
Defined.

(** ** Combination *)

(** C8.  On two score arrays of equal length, the combined scores with
    [alpha = 1] are the vector scores, index by index, and with [alpha = 0]
    they are the BM25 scores. *)
Theorem alpha_endpoints (v b : ndarray) :
  length v = length b ->
  (exists c, combine_scores 1 v b = Ok c /\ Forall2 Qeq c v) /\
  (exists c, combine_scores 0 v b = Ok c /\ Forall2 Qeq c b).
Proof.
  intro Hlen. split; eexists; (split; [now apply combine_scores_aligned |]).
  - revert b Hlen. induction v as [|x v IH]; intros [|y b] Hlen;
      simpl in *; try congruence; constructor.
    + ring.
    + apply IH. congruence.
  - revert b Hlen. induction v as [|x v IH]; intros [|y b] Hlen;
      simpl in *; try congruence; constructor.
    + ring.
    + apply IH. congruence.
Qed.

Lemma alpha_endpoints_witness :
  (exists c, combine_scores 1 [1; 0; 1 # 2] [0; 1; 1 # 4] = Ok c /\
             Forall2 Qeq c [1; 0; 1 # 2]) /\
  (exists c, combine_scores 0 [1; 0; 1 # 2] [0; 1; 1 # 4] = Ok c /\
             Forall2 Qeq c [0; 1; 1 # 4]).
Proof.
  apply (alpha_endpoints [1; 0; 1 # 2] [0; 1; 1 # 4]). reflexivity.
Defined.

(** ** Sorting *)

Section Sorting.

Context {A : Type}.

Lemma insert_by_score_perm (p : A * Q) (l : list (A * Q)) :
  Permutation (insert_by_score p l) (p :: l).
Proof.
  induction l as [|q t IH]; simpl.
  - reflexivity.
  - destruct (Qle_bool (snd p) (snd q)).
    + reflexivity.
    + rewrite IH. apply perm_swap.
Qed.

Lemma sort_by_score_perm (l : list (A * Q)) :
  Permutation (sort_by_score l) l.
Proof.
  induction l as [|p t IH]; simpl.
  - reflexivity.
  - rewrite insert_by_score_perm. now constructor.
Qed.

End Sorting.

Section GenericSorted.

Context {A : Type}.

Lemma StronglySorted_weaken (R R' : A -> A -> Prop) (l : list A) :
  (forall x y, In x l -> In y l -> R x y -> R' x y) ->
  StronglySorted R l -> StronglySorted R' l.
Proof.
  intros Himp Hs. induction Hs as [|x l Hs IH Hall].
  - constructor.
  - constructor.
    + apply IH. intros y z Hy Hz. apply Himp; now right.
    + rewrite Forall_forall in *. intros y Hy.
      apply Himp; [now left | now right | now apply Hall].
Qed.

Lemma StronglySorted_snoc (R : A -> A -> Prop) (l : list A) (x : A) :
  StronglySorted R l -> Forall (fun y => R y x) l ->
  StronglySorted R (l ++ [x]).
Proof.
  intros Hs Hall. induction Hs as [|y l Hs IH Hy]; simpl.
  - repeat constructor.
  - inversion Hall; subst. constructor.
    + now apply IH.
    + apply Forall_app. split; [assumption | now constructor].
Qed.

Lemma StronglySorted_rev (R : A -> A -> Prop) (l : list A) :
  StronglySorted R l -> StronglySorted (fun x y => R y x) (rev l).
Proof.
  intro Hs. induction Hs as [|x l Hs IH Hall]; simpl.
  - constructor.
  - apply StronglySorted_snoc; [exact IH | now apply Forall_rev].
Qed.

Lemma StronglySorted_firstn (R : A -> A -> Prop) (l : list A) :
  StronglySorted R l -> forall n, StronglySorted R (firstn n l).
Proof.
  intro Hs. induction Hs as [|x l Hs IH Hall]; intros [|n]; simpl;
    try constructor.
  - apply IH.
  - rewrite Forall_forall in *. intros y Hy. apply Hall.
    rewrite <- (firstn_skipn n l). apply in_or_app. now left.
Qed.

Lemma StronglySorted_map {B : Type} (f : A -> B) (R : B -> B -> Prop) (l : list A) :
  StronglySorted (fun x y => R (f x) (f y)) l -> StronglySorted R (map f l).
Proof.
  intro Hs. induction Hs as [|x l Hs IH Hall]; simpl; constructor.
  - exact IH.
  - now apply Forall_map.
Qed.

Lemma NoDup_firstn (l : list A) (n : nat) : NoDup l -> NoDup (firstn n l).
Proof.
  intro Hnd. rewrite <- (firstn_skipn n l) in Hnd.
  now apply NoDup_app_remove_r in Hnd.
Qed.

Lemma slice_to_firstn (l : list A) (k : Z) :
  exists n, slice_to l k = firstn n l.
Proof.
  unfold slice_to. destruct (0 <=? k)%Z; eauto.
Qed.

Lemma slice_to_length (l : list A) (k : Z) :
  length (slice_to l k) = slice_length (length l) k.
Proof.
  unfold slice_to, slice_length.
  destruct (0 <=? k)%Z; rewrite length_firstn; lia.
Qed.

End GenericSorted.

Lemma insert_by_score_sorted (p : nat * Q) (l : list (nat * Q)) :
  StronglySorted ascending l ->
  Forall (fun q => (fst p < fst q)%nat) l ->
  StronglySorted ascending (insert_by_score p l).
Proof.
  intros Hs. induction Hs as [|q t Hs IH Hq]; intro Hidx; simpl.
  - repeat constructor.
  - inversion Hidx as [|? ? Hpq Hpt]; subst.
    destruct (Qle_bool (snd p) (snd q)) eqn:E.
    + apply Qle_bool_iff in E.
      constructor; [now constructor |].
      assert (Hp : ascending p q).
      { unfold ascending. destruct (Qlt_le_dec (snd p) (snd q)) as [Hlt | Hge].
        - now left.
        - right. split; [now apply Qle_antisym | exact Hpq]. }
      constructor; [exact Hp |].
      rewrite Forall_forall in *. intros r Hr.
      specialize (Hq r Hr). specialize (Hpt r Hr).
      unfold ascending in *.
      destruct Hp as [Hp | [Hp _]], Hq as [Hq | [Hq _]].
      * left. lra.
      * left. lra.
      * left. lra.
      * right. split; [lra | exact Hpt].
    + assert (Hlt : snd q < snd p).
      { apply Qnot_le_lt. intro Hle. apply Qle_bool_iff in Hle. congruence. }
      constructor; [now apply IH |].
      rewrite Forall_forall in *. intros r Hr.
      apply (Permutation_in _ (insert_by_score_perm p t)) in Hr.
      destruct Hr as [<- | Hr]; [now left | now apply Hq].
Qed.

Lemma sort_by_score_sorted (l : list (nat * Q)) :
  StronglySorted (fun p q => (fst p < fst q)%nat) l ->
  StronglySorted ascending (sort_by_score l).
Proof.
  intro Hs. induction Hs as [|p t Hs IH Hp]; simpl.
  - constructor.
  - apply insert_by_score_sorted; [exact IH |].
    rewrite Forall_forall in *. intros q Hq. apply Hp.
    now apply (Permutation_in _ (sort_by_score_perm t)).
Qed.

Lemma enumerate_from_spec (a : ndarray) :
  forall n,
    map fst (combine (seq n (length a)) a) = seq n (length a) /\
    StronglySorted (fun p q => (fst p < fst q)%nat) (combine (seq n (length a)) a) /\
    Forall (fun p => (n <= fst p)%nat /\ nth_error a (fst p - n) = Some (snd p))
           (combine (seq n (length a)) a).
Proof.
  induction a as [|x a IH]; intro n; simpl.
  - repeat constructor.
  - destruct (IH (S n)) as (Hfst & Hs & Hall). repeat split.
    + now rewrite Hfst.
    + constructor; [exact Hs |].
      rewrite Forall_forall in *. intros p Hp.
      destruct (Hall p Hp) as [Hle _]. simpl. lia.
    + constructor.
      * simpl. split; [lia |]. now rewrite Nat.sub_diag.
      * rewrite Forall_forall in *. intros p Hp.
        destruct (Hall p Hp) as [Hle Hnth]. split; [lia |].
        replace (fst p - n)%nat with (S (fst p - S n)) by lia.
        exact Hnth.
Qed.

Lemma argsort_perm (a : ndarray) :
  Permutation (argsort a) (seq 0 (length a)).
Proof.
  unfold argsort, enumerate.
  rewrite <- (proj1 (enumerate_from_spec a 0)) at 2.
  apply Permutation_map, sort_by_score_perm.
Qed.

Lemma argsort_sorted (a : ndarray) :
  StronglySorted (fun i j => ranks_before a j i) (argsort a).
Proof.
  unfold argsort. apply StronglySorted_map.
  destruct (enumerate_from_spec a 0) as (_ & Hs & Hall).
  apply (StronglySorted_weaken ascending).
  - intros p q Hp Hq Hasc.
    assert (Hscore : forall r, In r (sort_by_score (enumerate a)) ->
                               snd r = score a (fst r)).
    { intros r Hr. apply (Permutation_in _ (sort_by_score_perm _)) in Hr.
      rewrite Forall_forall in Hall. destruct (Hall r Hr) as [_ Hnth].
      rewrite Nat.sub_0_r in Hnth. unfold score.
      now rewrite (nth_error_nth _ _ _ Hnth). }
    unfold ranks_before. rewrite <- (Hscore p Hp), <- (Hscore q Hq).
    exact Hasc.
  - now apply sort_by_score_sorted.
Qed.

(** ** Ranking *)

Lemma sorted_indices_perm (c : ndarray) :
  Permutation (sorted_indices c) (seq 0 (length c)).
Proof.
  unfold sorted_indices. rewrite <- Permutation_rev. apply argsort_perm.
Qed.

Lemma sorted_indices_sorted (c : ndarray) :
  StronglySorted (ranks_before c) (sorted_indices c).
Proof.
  unfold sorted_indices.
  apply (StronglySorted_rev (fun i j => ranks_before c j i)), argsort_sorted.
Qed.

Lemma ranks_before_descending (c : ndarray) (i j : nat) :
  ranks_before c i j -> score c j <= score c i.
Proof.
  intros [Hlt | [Heq _]]; [now apply Qlt_le_weak | rewrite Heq; apply Qle_refl].
Qed.

Lemma top_indices_spec (c : ndarray) (k : Z) :
  length (top_indices c k) = slice_length (length c) k /\
  NoDup (top_indices c k) /\
  Forall (fun i => (i < length c)%nat) (top_indices c k) /\
  StronglySorted (ranks_before c) (top_indices c k).
Proof.
  pose proof (sorted_indices_perm c) as Hperm.
  unfold top_indices. split; [| split; [| split]].
  - rewrite slice_to_length. f_equal.
    rewrite (Permutation_length Hperm). apply length_seq.
  - destruct (slice_to_firstn (sorted_indices c) k) as [n ->].
    apply NoDup_firstn.
    apply (Permutation_NoDup (Permutation_sym Hperm)), seq_NoDup.
  - destruct (slice_to_firstn (sorted_indices c) k) as [n ->].
    apply Forall_forall. intros i Hi.
    assert (Hin : In i (sorted_indices c)).
    { rewrite <- (firstn_skipn n (sorted_indices c)). apply in_or_app. now left. }
    apply (Permutation_in _ Hperm), in_seq in Hin. lia.
  - destruct (slice_to_firstn (sorted_indices c) k) as [n ->].
    apply StronglySorted_firstn, sorted_indices_sorted.
Qed.

Lemma mapM_getitem_ok {A : Type} (docs : list A) (idx : list nat) :
  Forall (fun i => (i < length docs)%nat) idx ->
  exists ds, mapM (getitem docs) idx = Ok ds /\
             Forall2 (fun i d => nth_error docs i = Some d) idx ds.
Proof.
  induction 1 as [|i idx Hi _ (ds & Hds & Hall)]; simpl.
  - exists []. split; [reflexivity | constructor].
  - unfold getitem at 1.
    destruct (nth_error docs i) as [d|] eqn:E.
    + exists (d :: ds). simpl. rewrite Hds. split; [reflexivity | now constructor].
    + apply nth_error_None in E. lia.
Qed.

(** Steps 5 to 7 on aligned arrays never raise, whatever [k] and [alpha]. *)
Lemma fusion_rank_ok (all_docs : list Document) (v b : ndarray) (k : Z) (alpha : Q) :
  length v = length b -> length all_docs = length v ->
  exists c docs,
    combine_scores alpha v b = Ok c /\ length c = length v /\
    fusion_rank all_docs v b k alpha = Ok docs /\
    length docs = slice_length (length v) k /\
    Forall2 (fun i d => nth_error all_docs i = Some d) (top_indices c k) docs.
Proof.
  intros Hvb Hdocs.
  pose proof (combine_scores_aligned alpha v b Hvb) as Hc.
  set (c := zip_with Qplus (np_scalar_mul alpha v) (np_scalar_mul (1 - alpha) b)) in *.
  assert (Hlen : length c = length v).
  { unfold c. rewrite zip_with_length; unfold np_scalar_mul; rewrite !length_map; auto. }
  destruct (top_indices_spec c k) as (Hk & _ & Hlt & _).
  destruct (mapM_getitem_ok all_docs (top_indices c k)) as (docs & Hm & Hall).
  { now rewrite Hdocs, <- Hlen. }
  exists c, docs. repeat split; auto.
  - unfold fusion_rank. rewrite Hc. exact Hm.
  - rewrite <- (Forall2_length Hall), Hk, Hlen. reflexivity.
Qed.

(** C4, as the specification states it, fails on ties: two documents with
    equal combined scores are returned with the later corpus index first. *)
Lemma tie_break_reverses_corpus_order :
  exists c,
    combine_scores (1 # 2) [1; 1] [0; 0] = Ok c /\
    score c 0 == score c 1 /\
    top_indices c 2 = [1%nat; 0%nat] /\
    fusion_rank [solar; turbines] [1; 1] [0; 0] 2 (1 # 2) = Ok [turbines; solar] /\
    fusion_rank [solar; turbines] [1; 1] [0; 0] 2 (1 # 2) <> Ok [solar; turbines].
Proof.
  exists [2 # 4; 2 # 4].
  split; [reflexivity | split; [reflexivity | split; [reflexivity | split]]].
  - reflexivity.
  - discriminate.
Qed.

(** ** Lengths that do not match *)

(** C5, as the code has it.  The combination of two score arrays of unequal
    length follows numpy's broadcasting: when neither length is 1 it raises
    numpy's broadcast ValueError and the ranking step returns no result; when
    one array has a single score, that score is combined with every score of
    the other array and no error is raised.  No array is truncated or padded
    with zeros. *)
Theorem misaligned_scores_broadcast (alpha : Q) (v b : ndarray) :
  length v <> length b ->
  (length v <> 1%nat -> length b <> 1%nat ->
     combine_scores alpha v b = Raise ValueError_broadcast /\
     forall all_docs k, fusion_rank all_docs v b k alpha = Raise ValueError_broadcast) /\
  (length v = 1%nat ->
     exists c, combine_scores alpha v b = Ok c /\ length c = length b /\
       forall i, (i < length b)%nat ->
         nth i c 0 = alpha * nth 0 v 0 + (1 - alpha) * nth i b 0) /\
  (length b = 1%nat ->
     exists c, combine_scores alpha v b = Ok c /\ length c = length v /\
       forall i, (i < length v)%nat ->
         nth i c 0 = alpha * nth i v 0 + (1 - alpha) * nth 0 b 0).
Proof.
  intro Hne.
  assert (Heqb : Nat.eqb (length (np_scalar_mul alpha v))
                         (length (np_scalar_mul (1 - alpha) b)) = false).
  { unfold np_scalar_mul. rewrite !length_map. now apply Nat.eqb_neq. }
  split; [| split].
  - intros Hv Hb.
    assert (Hc : combine_scores alpha v b = Raise ValueError_broadcast).
    { unfold combine_scores, np_add. rewrite Heqb.
      destruct v as [|x [|x' v]]; destruct b as [|y [|y' b]];
        simpl in *; congruence. }
    split; [exact Hc |].
    intros all_docs k. unfold fusion_rank. now rewrite Hc.
  - intro Hv. destruct v as [|x [|x' v]]; try discriminate.
    exists (map (fun y => alpha * x + y) (np_scalar_mul (1 - alpha) b)).
    split; [| split].
    + unfold combine_scores, np_add. rewrite Heqb. reflexivity.
    + unfold np_scalar_mul. now rewrite !length_map.
    + intros i Hi. unfold np_scalar_mul. rewrite map_map.
      now rewrite nth_map_score.
  - intro Hb. destruct b as [|y [|y' b]]; try discriminate.
    exists (map (fun x => x + (1 - alpha) * y) (np_scalar_mul alpha v)).
    split; [| split].
    + unfold combine_scores, np_add. rewrite Heqb.
      destruct v as [|x [|x' v]]; reflexivity.
    + unfold np_scalar_mul. now rewrite !length_map.
    + intros i Hi. unfold np_scalar_mul. rewrite map_map.
      now rewrite nth_map_score.
Qed.

Lemma misaligned_scores_broadcast_witness :
  (combine_scores (1 # 2) [1; 0; 1 # 2] [0; 1] = Raise ValueError_broadcast /\
   forall all_docs k,
     fusion_rank all_docs [1; 0; 1 # 2] [0; 1] k (1 # 2) = Raise ValueError_broadcast) /\
  (exists c, combine_scores (1 # 2) [1] [1; 0] = Ok c /\ length c = 2%nat /\
     forall i, (i < 2)%nat ->
       nth i c 0 = (1 # 2) * nth 0 [1] 0 + (1 - (1 # 2)) * nth i [1; 0] 0).
Proof.
  split.
  - apply (misaligned_scores_broadcast (1 # 2) [1; 0; 1 # 2] [0; 1]);
      simpl; lia.
  - apply (misaligned_scores_broadcast (1 # 2) [1] [1; 0]); simpl; lia.
Defined.

(** C5, as the specification states it, fails when one array has a single
    score: the arrays have different lengths and a ranking is returned, by
    the ranking step and by the whole function over a one-chunk store and a
    two-chunk BM25 index. *)
Lemma single_score_is_broadcast :
  length [1] <> length [1; 0] /\
  (exists c, combine_scores (1 # 2) [1] [1; 0] = Ok c /\ length c = 2%nat) /\
  fusion_rank [solar] [1] [1; 0] 1 (1 # 2) = Ok [solar] /\
  length (map snd (similarity_search_with_score short_store "wind" 1)) <>
    length (get_scores long_bm25 (split "wind")) /\
  fusion_retrieval short_store long_bm25 "wind" 1 (1 # 2) = Ok [solar].
Proof.
  split; [discriminate | split; [| split; [| split]]].
  - eexists. split; reflexivity.
  - reflexivity.
  - discriminate.
  - reflexivity.
Qed.

(** ** Out-of-range [alpha] and [k] *)

Lemma normalize_lengths (s : ndarray) :
  s <> [] ->
  exists sim dist,
    normalize_similarity s = Ok sim /\ normalize_distance s = Ok dist /\
    length sim = length s /\ length dist = length s.
Proof.
  intro Hne.
  destruct (normalize_unfold s Hne) as (lo & hi & _ & _ & Hsim & Hdist).
  eexists. eexists. split; [exact Hsim | split; [exact Hdist |]].
  now rewrite !length_map.
Qed.

(** C6, as the specification states it, fails: a call with [alpha = 3], a
    call with [k = 0] and a call with [k = -1] all return a list of
    documents. *)
Lemma out_of_range_arguments_are_accepted :
  ~ (0 <= 3 <= 1) /\
  fusion_retrieval scenario_store scenario_bm25 "query" 2 3 =
    Ok [mkDocument "doc0" []; mkDocument "doc2" []] /\
  fusion_retrieval scenario_store scenario_bm25 "query" 0 (1 # 2) = Ok [] /\
  fusion_retrieval scenario_store scenario_bm25 "query" (-1) (1 # 2) =
    Ok [mkDocument "doc2" []; mkDocument "doc1" []; mkDocument "doc0" []].
Proof.
  split; [| split; [| split]].
  - intros [_ H]. unfold Qle in H. simpl in H. lia.
  - reflexivity.
  - reflexivity.
  - reflexivity.
Qed.

(** ** The scenario of the specification *)

(** C9.  Over four documents returned in corpus order, with BM25 scores
    [0.0, 2.0, 4.0, 2.0] and distances [0.1, 0.5, 0.05, 0.9] at the indices
    of these documents, [alpha = 0.5] and [k = 2], [fusion_retrieval] returns
    the documents of index 2 and of index 1, in this order. *)
Theorem concrete_scenario (vectorstore : VectorStore) (bm25 : BM25Okapi)
    (query : string) (d0 d1 d2 d3 : Document) :
  similarity_search vectorstore EmptyString (ntotal vectorstore) = [d0; d1; d2; d3] ->
  similarity_search_with_score vectorstore query 4 =
    [(d0, 1 # 10); (d1, 1 # 2); (d2, 1 # 20); (d3, 9 # 10)] ->
  get_scores bm25 (split query) = [0; 2; 4; 2] ->
  fusion_retrieval vectorstore bm25 query 2 (1 # 2) = Ok [d2; d1].
Proof.
  intros Hdocs Hvec Hbm. unfold fusion_retrieval.
  rewrite Hdocs. simpl length. rewrite Hvec, Hbm. reflexivity.
Qed.

Lemma concrete_scenario_witness :
  fusion_retrieval scenario_store scenario_bm25 "climate change" 2 (1 # 2) =
    Ok [mkDocument "doc2" []; mkDocument "doc1" []].
Proof.
  apply (concrete_scenario scenario_store scenario_bm25 "climate change"
           (mkDocument "doc0" []) (mkDocument "doc1" [])
           (mkDocument "doc2" []) (mkDocument "doc3" [])); reflexivity.
Defined.

(** ** Alignment of the score positions *)

(** C1 does not hold of the code.  Over a FAISS store of three chunks
    (corpus order: solar, turbines, rain) and the BM25 index of the same
    chunks, for the query "wind turbines": the BM25 scores are in corpus
    order, the vector scores are in order of distance to the query
    (turbines, rain, solar) and [all_docs] is in order of distance to the
    empty query (rain, solar, turbines).  Position by position the three
    sequences name different documents, and the call with [k = 1] returns
    the chunk that is last for both scorers. *)
Theorem score_positions_are_misaligned :
  get_scores example_bm25 (split "wind turbines") = [0; 2; 1] /\
  map (fun doc => split (page_content doc)) example_docs =
    [split "solar panels"; split "wind turbines"; split "wind and rain"] /\
  similarity_search_with_score example_store "wind turbines" 3 =
    [(turbines, 1 # 10); (rain, 1 # 2); (solar, 9 # 10)] /\
  similarity_search example_store EmptyString (ntotal example_store) =
    [rain; solar; turbines] /\
  fusion_retrieval example_store example_bm25 "wind turbines" 1 (1 # 2) = Ok [solar] /\
  fusion_retrieval example_store example_bm25 "wind turbines" 3 (1 # 2) =
    Ok [solar; rain; turbines].
Proof.
  repeat split.
Qed.

(** * Further properties of the fusion notebook *)

(** ** What a call can return *)

Lemma mapM_getitem_inv {A : Type} (docs : list A) (idx : list nat) :
  forall ds, mapM (getitem docs) idx = Ok ds ->
             Forall2 (fun i d => nth_error docs i = Some d) idx ds.
Proof.
  induction idx as [|i idx IH]; simpl; intros ds H.
  - injection H as <-. constructor.
  - unfold getitem at 1 in H.
    destruct (nth_error docs i) as [d|] eqn:E; simpl in H; [| discriminate].
    destruct (mapM (getitem docs) idx) as [ds'|e]; simpl in H; [| discriminate].
    injection H as <-. constructor; auto.
Qed.

Lemma mapM_getitem_raises {A : Type} (docs : list A) (idx : list nat) :
  Exists (fun i => (length docs <= i)%nat) idx ->
  mapM (getitem docs) idx = Raise IndexError.
Proof.
  induction idx as [|i idx IH]; intro Hex.
  - inversion Hex.
  - simpl. unfold getitem at 1.
    destruct (nth_error docs i) as [d|] eqn:E; simpl; [| reflexivity].
    assert (Hi : (i < length docs)%nat) by (apply nth_error_Some; congruence).
    inversion Hex as [? ? Hbad | ? ? Hrest]; subst; [lia |].
    now rewrite (IH Hrest).
Qed.

Lemma mapM_firstn {A B : Type} (f : A -> result B) (l : list A) :
  forall ys n, mapM f l = Ok ys -> mapM f (firstn n l) = Ok (firstn n ys).
Proof.
  induction l as [|x l IH]; simpl; intros ys n H.
  - injection H as <-. now rewrite !firstn_nil.
  - destruct (f x) as [y|e] eqn:E; simpl in H; [| discriminate].
    destruct (mapM f l) as [ys'|e] eqn:E'; simpl in H; [| discriminate].
    injection H as <-. destruct n as [|n]; simpl; [reflexivity |].
    rewrite E. simpl. now rewrite (IH ys' n eq_refl).
Qed.

(** The two normalisations and the combination, as one step. *)
Lemma fusion_retrieval_unfold (vectorstore : VectorStore) (bm25 : BM25Okapi)
    (query : string) (k : Z) (alpha : Q) (docs : list Document) :
  fusion_retrieval vectorstore bm25 query k alpha = Ok docs ->
  exists c, mapM (getitem (all_docs_of vectorstore)) (top_indices c k) = Ok docs.
Proof.
  unfold fusion_retrieval, all_docs_of, fusion_rank. intro H.
  destruct (normalize_distance _) as [v|e]; simpl in H; [| discriminate].
  destruct (normalize_similarity _) as [b|e]; simpl in H; [| discriminate].
  destruct (combine_scores alpha v b) as [c|e]; simpl in H; [| discriminate].
  now exists c.
Qed.

(** X1.  Whatever the store and the index return, a list returned by
    [fusion_retrieval] is made of entries of [all_docs] taken at pairwise
    different positions: no document is invented and no position is
    returned twice. *)
Theorem returned_documents_are_distinct_entries (vectorstore : VectorStore)
    (bm25 : BM25Okapi) (query : string) (k : Z) (alpha : Q) (docs : list Document) :
  fusion_retrieval vectorstore bm25 query k alpha = Ok docs ->
  exists positions,
    NoDup positions /\
    Forall2 (fun i d => nth_error (all_docs_of vectorstore) i = Some d) positions docs /\
    Forall (fun d => In d (all_docs_of vectorstore)) docs /\
    (length docs <= length (all_docs_of vectorstore))%nat.
Proof.
  intro H. destruct (fusion_retrieval_unfold _ _ _ _ _ _ H) as [c Hm].
  apply mapM_getitem_inv in Hm.
  destruct (top_indices_spec c k) as (_ & Hnd & _ & _).
  exists (top_indices c k). split; [exact Hnd | split; [exact Hm | split]].
  - clear Hnd H. induction Hm as [|i d idx ds Hi _ IH]; constructor.
    + eapply nth_error_In; eauto.
    + exact IH.
  - rewrite <- (Forall2_length Hm).
    apply Nat.le_trans with (length (seq 0 (length (all_docs_of vectorstore))));
      [| rewrite length_seq; lia].
    apply NoDup_incl_length; [exact Hnd |].
    intros i Hi. apply in_seq. split; [lia |]. simpl.
    clear - Hm Hi. induction Hm as [|j d idx ds Hj _ IH]; [contradiction |].
    destruct Hi as [-> | Hi]; [| now apply IH].
    apply nth_error_Some. congruence.
Qed.

Lemma returned_documents_are_distinct_entries_witness :
  exists positions,
    NoDup positions /\
    Forall2 (fun i d => nth_error (all_docs_of example_store) i = Some d)
            positions [solar; rain] /\
    Forall (fun d => In d (all_docs_of example_store)) [solar; rain] /\
    (length [solar; rain] <= length (all_docs_of example_store))%nat.
Proof.
  apply (returned_documents_are_distinct_entries
           example_store example_bm25 "wind turbines" 2 (1 # 2)).
  reflexivity.
Defined.

(** The call on sequences of one length [n >= 1], with the combined scores
    it ranks. *)
Lemma fusion_retrieval_aligned (vectorstore : VectorStore) (bm25 : BM25Okapi)
    (query : string) (n : nat) (k : Z) (alpha : Q) :
  same_lengths vectorstore bm25 query n -> (1 <= n)%nat ->
  exists c docs,
    length c = n /\
    fusion_retrieval vectorstore bm25 query k alpha = Ok docs /\
    Forall2 (fun i d => nth_error (all_docs_of vectorstore) i = Some d)
            (top_indices c k) docs.
Proof.
  intros (Hdocs & Hbm & Hvec) Hn.
  unfold fusion_retrieval. fold (all_docs_of vectorstore). rewrite Hdocs.
  set (vs := map snd (similarity_search_with_score vectorstore query n)).
  assert (Hvs : length vs = n) by (unfold vs; now rewrite length_map).
  assert (Hv_ne : vs <> []) by (destruct vs; simpl in *; [lia | discriminate]).
  assert (Hb_ne : get_scores bm25 (split query) <> []).
  { destruct (get_scores bm25 (split query)); simpl in *; [lia | discriminate]. }
  destruct (normalize_lengths vs Hv_ne) as (_ & v & _ & Hv & _ & Hvlen).
  destruct (normalize_lengths _ Hb_ne) as (b & _ & Hb & _ & Hblen & _).
  rewrite Hv, Hb. simpl.
  destruct (fusion_rank_ok (all_docs_of vectorstore) v b k alpha)
    as (c & docs & _ & Hc & Hrank & _ & Hall); try congruence.
  exists c, docs. repeat split; auto. congruence.
Qed.

Lemma map_nth_error_seq {A : Type} (l : list A) :
  map (nth_error l) (seq 0 (length l)) = map Some l.
Proof.
  induction l as [|x l IH]; simpl; [reflexivity |].
  f_equal. rewrite <- seq_shift, map_map. exact IH.
Qed.

Lemma map_Some_inj {A : Type} (l : list A) :
  forall l', map Some l = map Some l' -> l = l'.
Proof.
  induction l as [|x l IH]; intros [|y l'] H; simpl in H; try discriminate.
  - reflexivity.
  - injection H as -> H. f_equal. now apply IH.
Qed.

Lemma lookup_permutation {A : Type} (l : list A) (idx : list nat) (ds : list A) :
  Forall2 (fun i d => nth_error l i = Some d) idx ds ->
  Permutation idx (seq 0 (length l)) ->
  Permutation ds l.
Proof.
  intros Hall.
  assert (Hmap : map Some ds = map (nth_error l) idx).
  { induction Hall as [|i d idx ds Hi _ IH]; simpl; [reflexivity |].
    now rewrite Hi, IH. }
  intro Hperm.
  apply (Permutation_map (nth_error l)) in Hperm.
  rewrite map_nth_error_seq, <- Hmap in Hperm.
  apply Permutation_map_inv in Hperm. destruct Hperm as (l3 & Heq & Hp).
  apply map_Some_inj in Heq. subst l3. now apply Permutation_sym.
Qed.

Lemma top_indices_all (c : ndarray) (k : Z) :
  (Z.of_nat (length c) <= k)%Z -> top_indices c k = sorted_indices c.
Proof.
  intro Hk. unfold top_indices, slice_to.
  destruct (0 <=? k)%Z eqn:E; [| apply Z.leb_gt in E; lia].
  apply firstn_all2.
  rewrite (Permutation_length (sorted_indices_perm c)), length_seq. lia.
Qed.

(** X2.  When the documents, the BM25 scores and the scored results of a
    call have the same length [n >= 1] and [k >= n], [fusion_retrieval]
    returns every entry of [all_docs] exactly once: the result is a
    permutation of [all_docs]. *)
Theorem full_ranking_is_a_permutation (vectorstore : VectorStore) (bm25 : BM25Okapi)
    (query : string) (n : nat) (k : Z) (alpha : Q) :
  same_lengths vectorstore bm25 query n -> (1 <= n)%nat -> (Z.of_nat n <= k)%Z ->
  exists docs,
    fusion_retrieval vectorstore bm25 query k alpha = Ok docs /\
    Permutation docs (all_docs_of vectorstore).
Proof.
  intros Hsame Hn Hk.
  destruct (fusion_retrieval_aligned _ _ _ _ k alpha Hsame Hn)
    as (c & docs & Hc & Hret & Hall).
  exists docs. split; [exact Hret |].
  rewrite top_indices_all in Hall by (rewrite Hc; exact Hk).
  apply (lookup_permutation _ _ _ Hall).
  destruct Hsame as (Hdocs & _). rewrite Hdocs, <- Hc.
  apply sorted_indices_perm.
Qed.

Lemma full_ranking_is_a_permutation_witness :
  exists docs,
    fusion_retrieval example_store example_bm25 "wind turbines" 5 (1 # 2) = Ok docs /\
    Permutation docs (all_docs_of example_store).
Proof.
  apply (full_ranking_is_a_permutation example_store example_bm25 "wind turbines" 3).
  - repeat split.
  - lia.
  - lia.
Defined.

(** X3.  Asking for fewer documents returns a prefix: for [0 <= k <= k'],
    when the call with [k'] returns a list, the call with [k] returns its
    first [k] entries. *)
Theorem smaller_k_returns_a_prefix (vectorstore : VectorStore) (bm25 : BM25Okapi)
    (query : string) (k k' : Z) (alpha : Q) (docs : list Document) :
  (0 <= k <= k')%Z ->
  fusion_retrieval vectorstore bm25 query k' alpha = Ok docs ->
  fusion_retrieval vectorstore bm25 query k alpha = Ok (firstn (Z.to_nat k) docs).
Proof.
  intros Hk. unfold fusion_retrieval, fusion_rank. intro H.
  destruct (normalize_distance _) as [v|e]; simpl in *; [| discriminate].
  destruct (normalize_similarity _) as [b|e]; simpl in *; [| discriminate].
  destruct (combine_scores alpha v b) as [c|e]; simpl in *; [| discriminate].
  assert (Hslice : top_indices c k = firstn (Z.to_nat k) (top_indices c k')).
  { unfold top_indices, slice_to.
    destruct (0 <=? k)%Z eqn:E; [| apply Z.leb_gt in E; lia].
    destruct (0 <=? k')%Z eqn:E'; [| apply Z.leb_gt in E'; lia].
    rewrite firstn_firstn. f_equal. lia. }
  rewrite Hslice. now apply mapM_firstn.
Qed.

Lemma smaller_k_returns_a_prefix_witness :
  fusion_retrieval example_store example_bm25 "wind turbines" 1 (1 # 2) =
    Ok (firstn (Z.to_nat 1) [solar; rain; turbines]).
Proof.
  apply (smaller_k_returns_a_prefix example_store example_bm25 "wind turbines" 1 3).
  - lia.
  - reflexivity.
Defined.

(** ** More scores than documents *)

(** X4.  Over a store that returns a single document, with a BM25 index
    that scores [m >= 2] documents, the single vector score is broadcast
    over the [m] BM25 scores; a call with [k >= m] then looks up a position
    that [all_docs] does not have and raises IndexError. *)
Theorem longer_bm25_index_raises_index_error (vectorstore : VectorStore)
    (bm25 : BM25Okapi) (query : string) (m : nat) (k : Z) (alpha : Q) :
  length (all_docs_of vectorstore) = 1%nat ->
  length (similarity_search_with_score vectorstore query 1) = 1%nat ->
  length (get_scores bm25 (split query)) = m ->
  (2 <= m)%nat -> (Z.of_nat m <= k)%Z ->
  fusion_retrieval vectorstore bm25 query k alpha = Raise IndexError.
Proof.
  intros Hdocs Hvec Hbm Hm Hk.
  unfold fusion_retrieval. fold (all_docs_of vectorstore). rewrite Hdocs.
  set (vs := map snd (similarity_search_with_score vectorstore query 1)).
  assert (Hvs : length vs = 1%nat) by (unfold vs; now rewrite length_map).
  assert (Hv_ne : vs <> []) by (destruct vs; simpl in *; [lia | discriminate]).
  assert (Hb_ne : get_scores bm25 (split query) <> []).
  { destruct (get_scores bm25 (split query)); simpl in *; [lia | discriminate]. }
  destruct (normalize_lengths vs Hv_ne) as (_ & v & _ & Hv & _ & Hvlen).
  destruct (normalize_lengths _ Hb_ne) as (b & _ & Hb & _ & Hblen & _).
  rewrite Hv, Hb. simpl. unfold fusion_rank.
  assert (Hc : exists c, combine_scores alpha v b = Ok c /\ length c = m).
  { destruct v as [|x [|x' v]]; simpl in Hvlen; try lia.
    exists (map (fun y => alpha * x + y) (np_scalar_mul (1 - alpha) b)). split.
    - unfold combine_scores, np_add, np_scalar_mul. rewrite !length_map.
      simpl length. destruct (Nat.eqb 1 (length b)) eqn:E; [| reflexivity].
      apply Nat.eqb_eq in E. lia.
    - unfold np_scalar_mul. rewrite !length_map. congruence. }
  destruct Hc as (c & -> & Hlen). simpl.
  apply mapM_getitem_raises.
  rewrite top_indices_all by (rewrite Hlen; exact Hk).
  apply Exists_exists. exists 1%nat. split; [| lia].
  apply (Permutation_in _ (Permutation_sym (sorted_indices_perm c))).
  apply in_seq. lia.
Qed.

Lemma longer_bm25_index_raises_index_error_witness :
  fusion_retrieval short_store long_bm25 "wind" 2 (1 # 2) = Raise IndexError.
Proof.
  apply (longer_bm25_index_raises_index_error short_store long_bm25 "wind" 2);
    try reflexivity; lia.
Defined.

(** ** Order and extremes of the normalised scores *)

Lemma fraction_le_iff (lo d x y : Q) :
  0 < d -> ((x - lo) / d <= (y - lo) / d <-> x <= y).
Proof.
  intro Hd. unfold Qdiv.
  rewrite Qmult_le_r by now apply Qinv_lt_0_compat.
  split; intro H; lra.
Qed.

Lemma range_pos (lo hi : Q) (s : ndarray) :
  is_min lo s -> is_max hi s -> 0 < hi - lo + epsilon.
Proof.
  intros [Hin _] [_ Hup]. pose proof (Hup lo Hin). pose proof epsilon_pos. lra.
Qed.

(** X5.  Normalisation keeps the order of the raw scores: the BM25
    normalisation is increasing and the distance normalisation is decreasing,
    so two documents compare by normalised score as they do by raw score
    (a smaller distance gives a larger normalised vector score). *)
Theorem normalization_keeps_the_order (s : ndarray) :
  s <> [] ->
  exists sim dist,
    normalize_similarity s = Ok sim /\ normalize_distance s = Ok dist /\
    forall i j, (i < length s)%nat -> (j < length s)%nat ->
      (nth i sim 0 <= nth j sim 0 <-> nth i s 0 <= nth j s 0) /\
      (nth j dist 0 <= nth i dist 0 <-> nth i s 0 <= nth j s 0).
Proof.
  intro Hne.
  destruct (normalize_unfold s Hne) as (lo & hi & Hmin & Hmax & Hsim & Hdist).
  pose proof (range_pos lo hi s Hmin Hmax) as Hd.
  exists (map (fun x => (x - lo) / (hi - lo + epsilon)) s).
  exists (map (fun x => 1 - (x - lo) / (hi - lo + epsilon)) s).
  split; [exact Hsim | split; [exact Hdist |]].
  intros i j Hi Hj. rewrite !nth_map_score by assumption.
  pose proof (fraction_le_iff lo _ (nth i s 0) (nth j s 0) Hd) as Hiff.
  split; [exact Hiff |].
  rewrite <- Hiff. split; intro H; lra.
Qed.

Lemma normalization_keeps_the_order_witness :
  exists sim dist,
    normalize_similarity [3; 1; 2] = Ok sim /\ normalize_distance [3; 1; 2] = Ok dist /\
    forall i j, (i < 3)%nat -> (j < 3)%nat ->
      (nth i sim 0 <= nth j sim 0 <-> nth i [3; 1; 2] 0 <= nth j [3; 1; 2] 0) /\
      (nth j dist 0 <= nth i dist 0 <-> nth i [3; 1; 2] 0 <= nth j [3; 1; 2] 0).
Proof.
  apply (normalization_keeps_the_order [3; 1; 2]). discriminate.
Defined.

Lemma is_min_unique (lo lo' : Q) (s : ndarray) :
  is_min lo s -> is_min lo' s -> lo == lo'.
Proof.
  intros [Hin Hlow] [Hin' Hlow']. apply Qle_antisym; auto.
Qed.

Lemma is_max_unique (hi hi' : Q) (s : ndarray) :
  is_max hi s -> is_max hi' s -> hi == hi'.
Proof.
  intros [Hin Hup] [Hin' Hup']. apply Qle_antisym; auto.
Qed.

Lemma is_min_shift (lo c : Q) (s : ndarray) :
  is_min lo s -> is_min (lo + c) (map (fun x => x + c) s).
Proof.
  intros [Hin Hlow]. split.
  - apply (in_map (fun x => x + c)) in Hin. exact Hin.
  - intros y Hy. apply in_map_iff in Hy. destruct Hy as (x & <- & Hx).
    pose proof (Hlow x Hx). lra.
Qed.

Lemma is_max_shift (hi c : Q) (s : ndarray) :
  is_max hi s -> is_max (hi + c) (map (fun x => x + c) s).
Proof.
  intros [Hin Hup]. split.
  - apply (in_map (fun x => x + c)) in Hin. exact Hin.
  - intros y Hy. apply in_map_iff in Hy. destruct Hy as (x & <- & Hx).
    pose proof (Hup x Hx). lra.
Qed.

Lemma Forall2_map_map (f g : Q -> Q) (s : ndarray) :
  (forall x, In x s -> f x == g x) -> Forall2 Qeq (map f s) (map g s).
Proof.
  induction s as [|x s IH]; intro H; simpl; constructor.
  - apply H. now left.
  - apply IH. intros y Hy. apply H. now right.
Qed.

(** X7.  Normalisation ignores a constant offset: adding the same number to
    every raw score gives, index by index, the same normalised scores. *)
Theorem normalization_ignores_a_constant_offset (s : ndarray) (c : Q) :
  s <> [] ->
  exists sim dist sim' dist',
    normalize_similarity s = Ok sim /\ normalize_distance s = Ok dist /\
    normalize_similarity (map (fun x => x + c) s) = Ok sim' /\
    normalize_distance (map (fun x => x + c) s) = Ok dist' /\
    Forall2 Qeq sim' sim /\ Forall2 Qeq dist' dist.
Proof.
  intro Hne.
  assert (Hne' : map (fun x => x + c) s <> []) by (destruct s; [congruence | discriminate]).
  destruct (normalize_unfold s Hne) as (lo & hi & Hmin & Hmax & Hsim & Hdist).
  destruct (normalize_unfold _ Hne') as (lo' & hi' & Hmin' & Hmax' & Hsim' & Hdist').
  pose proof (is_min_unique _ _ _ Hmin' (is_min_shift lo c s Hmin)) as Hlo.
  pose proof (is_max_unique _ _ _ Hmax' (is_max_shift hi c s Hmax)) as Hhi.
  pose proof (range_pos lo hi s Hmin Hmax) as Hd.
  assert (Hfrac : forall x, (x + c - lo') / (hi' - lo' + epsilon)
                            == (x - lo) / (hi - lo + epsilon)).
  { intro x. rewrite Hlo, Hhi. field. lra. }
  do 4 eexists.
  split; [exact Hsim | split; [exact Hdist | split; [exact Hsim' | split; [exact Hdist' |]]]].
  rewrite !map_map. split; apply Forall2_map_map; intros x _.
  - apply Hfrac.
  - now rewrite Hfrac.
Qed.

Lemma normalization_ignores_a_constant_offset_witness :
  exists sim dist sim' dist',
    normalize_similarity [3; 1; 2] = Ok sim /\ normalize_distance [3; 1; 2] = Ok dist /\
    normalize_similarity (map (fun x => x + (5 # 2)) [3; 1; 2]) = Ok sim' /\
    normalize_distance (map (fun x => x + (5 # 2)) [3; 1; 2]) = Ok dist' /\
    Forall2 Qeq sim' sim /\ Forall2 Qeq dist' dist.
Proof.
  apply (normalization_ignores_a_constant_offset [3; 1; 2] (5 # 2)). discriminate.
Defined.

(** ** Rankings that depend on one scorer only *)

(** Scored items that agree up to equality of rationals. *)
Lemma insert_by_score_Qeq {A : Type} (p p' : A * Q) (l l' : list (A * Q)) :
  fst p = fst p' -> snd p == snd p' ->
  Forall2 (fun q q' => fst q = fst q' /\ snd q == snd q') l l' ->
  Forall2 (fun q q' => fst q = fst q' /\ snd q == snd q')
          (insert_by_score p l) (insert_by_score p' l').
Proof.
  intros Hf Hs Hall. induction Hall as [|q q' l l' [Hqf Hqs] Hall IH]; simpl.
  - repeat constructor; auto.
  - rewrite <- (Qleb_comp _ _ Hs _ _ Hqs).
    destruct (Qle_bool (snd p) (snd q)).
    + repeat constructor; auto.
    + constructor; auto.
Qed.

Lemma sort_by_score_Qeq {A : Type} (l l' : list (A * Q)) :
  Forall2 (fun q q' => fst q = fst q' /\ snd q == snd q') l l' ->
  Forall2 (fun q q' => fst q = fst q' /\ snd q == snd q')
          (sort_by_score l) (sort_by_score l').
Proof.
  induction 1 as [|q q' l l' [Hqf Hqs] Hall IH]; simpl.
  - constructor.
  - now apply insert_by_score_Qeq.
Qed.

Lemma argsort_Qeq (c c' : ndarray) :
  Forall2 Qeq c c' -> argsort c = argsort c'.
Proof.
  intro H. unfold argsort, enumerate.
  assert (Hlen : length c = length c') by now apply Forall2_length in H.
  assert (Hall : forall n,
             Forall2 (fun q q' : nat * Q => fst q = fst q' /\ snd q == snd q')
                     (combine (seq n (length c)) c) (combine (seq n (length c')) c')).
  { clear Hlen. induction H as [|x x' c c' Hx _ IH]; intro n; simpl;
      constructor; auto. }
  specialize (Hall 0%nat). apply sort_by_score_Qeq in Hall.
  induction Hall as [|q q' l l' [Hf _] _ IH]; simpl; [reflexivity |].
  now rewrite Hf, IH.
Qed.

Lemma blend_endpoints (v : ndarray) :
  forall b, length v = length b ->
  Forall2 Qeq (zip_with Qplus (np_scalar_mul 1 v) (np_scalar_mul (1 - 1) b)) v /\
  Forall2 Qeq (zip_with Qplus (np_scalar_mul 0 v) (np_scalar_mul (1 - 0) b)) b.
Proof.
  induction v as [|x v IH]; intros [|y b] Hlen; simpl in *; try congruence.
  - split; constructor.
  - destruct (IH b) as [H1 H0]; [congruence |].
    split; constructor; auto; ring.
Qed.

(** X8.  With [alpha = 1] the ranking step does not depend on the BM25
    scores: it returns the documents ranked by the vector scores alone.
    With [alpha = 0] it returns the documents ranked by the BM25 scores
    alone. *)
Theorem alpha_endpoints_rank_by_one_scorer (all_docs : list Document)
    (v b : ndarray) (k : Z) :
  length v = length b ->
  fusion_rank all_docs v b k 1 = mapM (getitem all_docs) (top_indices v k) /\
  fusion_rank all_docs v b k 0 = mapM (getitem all_docs) (top_indices b k).
Proof.
  intro Hlen. destruct (blend_endpoints v b Hlen) as [H1 H0].
  unfold fusion_rank. rewrite !combine_scores_aligned by assumption. simpl.
  unfold top_indices, sorted_indices.
  now rewrite (argsort_Qeq _ _ H1), (argsort_Qeq _ _ H0).
Qed.

Lemma alpha_endpoints_rank_by_one_scorer_witness :
  fusion_rank scenario_docs [1; 0; 1 # 2; 0] [0; 1; 1 # 2; 0] 2 1 =
    mapM (getitem scenario_docs) (top_indices [1; 0; 1 # 2; 0] 2) /\
  fusion_rank scenario_docs [1; 0; 1 # 2; 0] [0; 1; 1 # 2; 0] 2 0 =
    mapM (getitem scenario_docs) (top_indices [0; 1; 1 # 2; 0] 2).
Proof.
  apply (alpha_endpoints_rank_by_one_scorer scenario_docs
           [1; 0; 1 # 2; 0] [0; 1; 1 # 2; 0] 2).
  reflexivity.
Defined.

(** ** The indexes of the notebook *)

Lemma map_fst_combine_same_length {A B : Type} (l : list A) :
  forall l' : list B, length l = length l' -> map fst (combine l l') = l.
Proof.
  induction l as [|x l IH]; intros [|y l'] H; simpl in *; try congruence.
  f_equal. apply IH. congruence.
Qed.

Lemma faiss_search_all (documents : list Document) (distance : string -> list Q)
    (query : string) :
  length (distance query) = length documents ->
  length (faiss_search documents distance query (length documents)) = length documents /\
  Permutation (map fst (faiss_search documents distance query (length documents)))
              documents.
Proof.
  intro Hlen. unfold faiss_search.
  assert (Hsort : length (sort_by_score (combine documents (distance query)))
                  = length documents).
  { rewrite (Permutation_length (sort_by_score_perm _)), length_combine, Hlen.
    apply Nat.min_id. }
  rewrite firstn_all2 by (rewrite Hsort; lia).
  split; [exact Hsort |].
  rewrite <- (map_fst_combine_same_length documents (distance query)) at 2
    by congruence.
  apply Permutation_map, sort_by_score_perm.
Qed.

(** A store and a BM25 index over one list of chunks. *)
Lemma faiss_and_bm25_over_one_list
    (okapi : list (list string) -> list string -> list string -> Q)
    (documents : list Document) (distance : string -> list Q)
    (query : string) (k : Z) (alpha : Q) :
  documents <> [] ->
  (forall q, length (distance q) = length documents) ->
  (0 <= k)%Z ->
  Permutation (all_docs_of (faiss_store documents distance)) documents /\
  exists docs,
    fusion_retrieval (faiss_store documents distance)
      (create_bm25_index okapi documents) query k alpha = Ok docs /\
    length docs = Nat.min (Z.to_nat k) (length documents) /\
    Forall (fun d => In d documents) docs.
Proof.
  intros Hne Hdist Hk.
  destruct (faiss_search_all documents distance EmptyString (Hdist _))
    as [Hlen0 Hperm0].
  destruct (faiss_search_all documents distance query (Hdist _)) as [Hlenq _].
  assert (Hall : Permutation (all_docs_of (faiss_store documents distance)) documents).
  { exact Hperm0. }
  split; [exact Hall |].
  assert (Hsame : same_lengths (faiss_store documents distance)
                    (create_bm25_index okapi documents) query (length documents)).
  { split; [| split].
    - apply (Permutation_length Hall).
    - simpl. now rewrite !length_map.
    - exact Hlenq. }
  assert (Hn : (1 <= length documents)%nat).
  { destruct documents; [congruence | simpl; lia]. }
  destruct (fusion_retrieval_aligned _ _ _ _ k alpha Hsame Hn)
    as (c & docs & Hc & Hret & Hlook).
  exists docs. split; [exact Hret | split].
  - rewrite <- (Forall2_length Hlook).
    rewrite (proj1 (top_indices_spec c k)), Hc. unfold slice_length.
    destruct (0 <=? k)%Z eqn:E; [reflexivity | apply Z.leb_gt in E; lia].
  - clear - Hlook Hall. induction Hlook as [|i d idx ds Hi _ IH]; constructor; auto.
    apply (Permutation_in _ Hall). eapply nth_error_In; eauto.
Qed.


(** * The reranking notebook *)

Section ReverseSort.

Context {A : Type} (position : A -> nat).

Lemma insert_reverse_perm (p : A * Q) (l : list (A * Q)) :
  Permutation (insert_reverse p l) (p :: l).
Proof.
  induction l as [|q t IH]; simpl.
  - reflexivity.
  - destruct (Qle_bool (snd q) (snd p)).
    + reflexivity.
    + rewrite IH. apply perm_swap.
Qed.

Lemma sorted_reverse_perm (l : list (A * Q)) :
  Permutation (sorted_reverse l) l.
Proof.
  induction l as [|p t IH]; simpl.
  - reflexivity.
  - rewrite insert_reverse_perm. now constructor.
Qed.

Lemma insert_reverse_sorted (p : A * Q) (l : list (A * Q)) :
  StronglySorted (descending_by position) l ->
  Forall (fun q => (position (fst p) < position (fst q))%nat) l ->
  StronglySorted (descending_by position) (insert_reverse p l).
Proof.
  intros Hs. induction Hs as [|q t Hs IH Hq]; intro Hidx; simpl.
  - repeat constructor.
  - inversion Hidx as [|? ? Hpq Hpt]; subst.
    destruct (Qle_bool (snd q) (snd p)) eqn:E.
    + apply Qle_bool_iff in E.
      assert (Hp : descending_by position p q).
      { unfold descending_by. destruct (Qlt_le_dec (snd q) (snd p)) as [Hlt | Hge].
        - now left.
        - right. split; [now apply Qle_antisym | exact Hpq]. }
      constructor; [now constructor |].
      constructor; [exact Hp |].
      rewrite Forall_forall in *. intros r Hr.
      specialize (Hq r Hr). specialize (Hpt r Hr).
      unfold descending_by in *.
      destruct Hp as [Hp | [Hp _]], Hq as [Hq | [Hq _]].
      * left. lra.
      * left. lra.
      * left. lra.
      * right. split; [lra | exact Hpt].
    + assert (Hlt : snd p < snd q).
      { apply Qnot_le_lt. intro Hle. apply Qle_bool_iff in Hle. congruence. }
      constructor; [now apply IH |].
      rewrite Forall_forall in *. intros r Hr.
      apply (Permutation_in _ (insert_reverse_perm p t)) in Hr.
      destruct Hr as [<- | Hr]; [now left | now apply Hq].
Qed.

Lemma sorted_reverse_sorted (l : list (A * Q)) :
  StronglySorted (fun p q => (position (fst p) < position (fst q))%nat) l ->
  StronglySorted (descending_by position) (sorted_reverse l).
Proof.
  intro Hs. induction Hs as [|p t Hs IH Hp]; simpl.
  - constructor.
  - apply insert_reverse_sorted; [exact IH |].
    rewrite Forall_forall in *. intros q Hq. apply Hp.
    now apply (Permutation_in _ (sorted_reverse_perm t)).
Qed.

End ReverseSort.

(** Sorting looks at the keys only: it commutes with a change of the items. *)
Lemma sorted_reverse_map {A B : Type} (g : A -> B) (l : list (A * Q)) :
  sorted_reverse (map (fun p => (g (fst p), snd p)) l) =
  map (fun p => (g (fst p), snd p)) (sorted_reverse l).
Proof.
  induction l as [|p t IH]; simpl; [reflexivity |].
  rewrite IH. generalize (sorted_reverse t). intro l.
  induction l as [|q l IHl]; simpl; [reflexivity |].
  destruct (Qle_bool (snd q) (snd p)); simpl; [reflexivity |].
  now rewrite IHl.
Qed.

Lemma slice_to_map {A B : Type} (f : A -> B) (l : list A) (k : Z) :
  slice_to (map f l) k = map f (slice_to l k).
Proof.
  unfold slice_to. rewrite length_map.
  destruct (0 <=? k)%Z; now rewrite firstn_map.
Qed.

(** The documents, each with its position and its score. *)
Lemma indexed_items_spec {A : Type} (docs : list A) :
  forall (scores : list Q) (n : nat),
  let items := combine (combine (seq n (length docs)) docs) scores in
  map (fun p => (snd (fst p), snd p)) items = combine docs scores /\
  StronglySorted (fun p q => (fst (fst p) < fst (fst q))%nat) items /\
  Forall (fun p => (n <= fst (fst p))%nat /\
                   nth_error docs (fst (fst p) - n) = Some (snd (fst p)) /\
                   nth_error scores (fst (fst p) - n) = Some (snd p)) items.
Proof.
  induction docs as [|d docs IH]; intros [|x scores] n; simpl;
    try (repeat constructor; fail).
  destruct (IH scores (S n)) as (Hmap & Hs & Hall). simpl in *.
  split; [now rewrite Hmap | split].
  - constructor; [exact Hs |].
    rewrite Forall_forall in *. intros p Hp.
    destruct (Hall p Hp) as [Hle _]. simpl. lia.
  - constructor.
    + simpl. rewrite Nat.sub_diag. repeat split. lia.
    + rewrite Forall_forall in *. intros p Hp.
      destruct (Hall p Hp) as (Hle & Hd & Hx). split; [lia |].
      replace (fst (fst p) - n)%nat with (S (fst (fst p) - S n)) by lia.
      now split.
Qed.

(** The core of the rerankers, with the positions it selects: they are
    positions of pairs, below the length of both lists. *)
Lemma rerank_core_paired {A : Type} (docs : list A) (scores : list Q) (top : Z) :
  (0 <= top)%Z ->
  exists positions,
    length (map fst (slice_to (sorted_reverse (combine docs scores)) top))
      = Nat.min (Z.to_nat top) (Nat.min (length docs) (length scores)) /\
    NoDup positions /\
    Forall2 (fun i d => nth_error docs i = Some d) positions
            (map fst (slice_to (sorted_reverse (combine docs scores)) top)) /\
    StronglySorted (reranks_before scores) positions /\
    Forall (fun i => (i < Nat.min (length docs) (length scores))%nat) positions.
Proof.
  intro Htop.
  destruct (indexed_items_spec docs scores 0) as (Hmap & Hs & Hall).
  set (items := combine (combine (seq 0 (length docs)) docs) scores) in *.
  assert (Hperm := sorted_reverse_perm items).
  assert (Hsorted := sorted_reverse_sorted (fun a : nat * A => fst a) items Hs).
  rewrite <- Hmap, (sorted_reverse_map snd), slice_to_map, map_map. simpl.
  unfold slice_to. destruct (0 <=? top)%Z eqn:E; [| apply Z.leb_gt in E; lia].
  set (chosen := firstn (Z.to_nat top) (sorted_reverse items)).
  assert (Hin : forall p, In p chosen -> In p items).
  { intros p Hp. apply (Permutation_in _ Hperm).
    unfold chosen in Hp. rewrite <- (firstn_skipn (Z.to_nat top) (sorted_reverse items)).
    apply in_or_app. now left. }
  rewrite Forall_forall in Hall.
  exists (map (fun p => fst (fst p)) chosen). split; [| split; [| split; [| split]]].
  - rewrite length_map. unfold chosen. rewrite length_firstn.
    rewrite (Permutation_length Hperm). unfold items.
    rewrite !length_combine, length_seq, Nat.min_id. reflexivity.
  - unfold chosen. rewrite <- firstn_map. apply NoDup_firstn.
    apply (Permutation_NoDup (Permutation_map _ (Permutation_sym Hperm))).
    clear - Hs. induction Hs as [|p t Hs IH Hp]; simpl; constructor; auto.
    intro Hbad. apply in_map_iff in Hbad. destruct Hbad as (q & Heq & Hq).
    rewrite Forall_forall in Hp. specialize (Hp q Hq). lia.
  - assert (Hch : Forall (fun p => In p items) chosen) by now apply Forall_forall.
    clear - Hch Hall. induction Hch as [|p t Hp _ IH]; simpl; constructor; auto.
    destruct (Hall p Hp) as (_ & Hd & _). now rewrite Nat.sub_0_r in Hd.
  - apply StronglySorted_map.
    apply (StronglySorted_weaken (descending_by (fun a : nat * A => fst a))).
    + intros p q Hp Hq Hpq.
      assert (Hscore : forall r, In r chosen -> snd r = score scores (fst (fst r))).
      { intros r Hr. destruct (Hall r (Hin r Hr)) as (_ & _ & Hx).
        rewrite Nat.sub_0_r in Hx. unfold score.
        now rewrite (nth_error_nth _ _ _ Hx). }
      unfold reranks_before. rewrite <- (Hscore p Hp), <- (Hscore q Hq). exact Hpq.
    + apply StronglySorted_firstn. exact Hsorted.
  - apply Forall_map, Forall_forall. intros p Hp.
    destruct (Hall p (Hin p Hp)) as (_ & Hd & Hx).
    rewrite Nat.sub_0_r in Hd, Hx.
    assert (Hd' : (fst (fst p) < length docs)%nat) by (apply nth_error_Some; congruence).
    assert (Hx' : (fst (fst p) < length scores)%nat) by (apply nth_error_Some; congruence).
    lia.
Qed.

(** The core of the three rerankers. *)
Lemma rerank_core {A : Type} (docs : list A) (scores : list Q) (top : Z) :
  (0 <= top)%Z ->
  reranked_selection docs scores
    (Nat.min (Z.to_nat top) (Nat.min (length docs) (length scores)))
    (map fst (slice_to (sorted_reverse (combine docs scores)) top)).
Proof.
  intro Htop.
  destruct (rerank_core_paired docs scores top Htop)
    as (positions & Hlen & Hnd & Hlook & Hsorted & _).
  exists positions. auto.
Qed.

Lemma combine_map_self {A : Type} (f : A -> Q) (l : list A) :
  map (fun x => (x, f x)) l = combine l (map f l).
Proof.
  induction l as [|x l IH]; simpl; [reflexivity | now rewrite IH].
Qed.

(** X11.  For [top_n >= 0], [rerank_documents] returns
    [min(top_n, len(docs))] of the given documents, taken at pairwise
    different positions, in descending order of the relevance score the chain
    gives them; documents with equal scores stay in the order in which they
    were given. *)
Theorem rerank_documents_is_a_stable_selection
    (relevance_score : string -> string -> Q) (query : string)
    (docs : list Document) (top_n : Z) :
  (0 <= top_n)%Z ->
  reranked_selection docs
    (map (fun doc => relevance_score query (page_content doc)) docs)
    (Nat.min (Z.to_nat top_n) (length docs))
    (rerank_documents relevance_score query docs top_n).
Proof.
  intro Htop. unfold rerank_documents.
  rewrite (combine_map_self (fun doc => relevance_score query (page_content doc))).
  pose proof (rerank_core docs
                (map (fun doc => relevance_score query (page_content doc)) docs)
                top_n Htop) as H.
  now rewrite length_map, Nat.min_id in H.
Qed.

Lemma rerank_documents_is_a_stable_selection_witness :
  reranked_selection example_docs
    (map (fun doc => token_overlap [] (split "wind") (split (page_content doc)))
         example_docs)
    (Nat.min (Z.to_nat 2) (length example_docs))
    (rerank_documents (fun q d => token_overlap [] (split q) (split d))
       "wind" example_docs 2).
Proof.
  apply (rerank_documents_is_a_stable_selection
           (fun q d => token_overlap [] (split q) (split d)) "wind" example_docs 2).
  lia.
Defined.

(** * The corrective-RAG notebook *)

Lemma fold_max_first (t : list Q) :
  forall acc,
    let m := fold_left (fun m y => if Qle_bool y m then m else y) t acc in
    acc <= m /\ (forall y, In y t -> y <= m) /\ In m (acc :: t).
Proof.
  induction t as [|y t IH]; intro acc; simpl.
  - split; [apply Qle_refl | split; [contradiction | now left]].
  - destruct (Qle_bool y acc) eqn:E.
    + apply Qle_bool_iff in E.
      destruct (IH acc) as (Hacc & Hall & Hin). split; [exact Hacc | split].
      * intros z [<- | Hz]; [now apply Qle_trans with acc | now apply Hall].
      * destruct Hin as [Hin | Hin]; [now left | right; now right].
    + assert (Hlt : acc < y).
      { apply Qnot_le_lt. intro Hle. apply Qle_bool_iff in Hle. congruence. }
      destruct (IH y) as (Hy & Hall & Hin). split; [| split].
      * apply Qle_trans with y; [now apply Qlt_le_weak | exact Hy].
      * intros z [<- | Hz]; [exact Hy | now apply Hall].
      * right. exact Hin.
Qed.

Lemma py_max_spec (l : list Q) :
  l <> [] ->
  exists m, py_max l = Returns m /\ In m l /\ forall x, In x l -> x <= m.
Proof.
  destruct l as [|x t]; [congruence | intros _].
  destruct (fold_max_first t x) as (Hacc & Hall & Hin).
  eexists. split; [reflexivity | split; [exact Hin |]].
  intros y [<- | Hy]; [exact Hacc | now apply Hall].
Qed.

Lemma list_index_spec (l : list Q) (m : Q) :
  In m l ->
  exists i y,
    list_index l m = Returns i /\ nth_error l i = Some y /\ y == m /\
    forall j z, (j < i)%nat -> nth_error l j = Some z -> ~ z == m.
Proof.
  induction l as [|x l IH]; intro Hin; [contradiction |].
  simpl. destruct (Qeq_bool x m) eqn:E.
  - apply Qeq_bool_iff in E. exists 0%nat, x.
    repeat split; auto. intros j z Hj. lia.
  - assert (Hne : ~ x == m).
    { intro Heq. apply Qeq_bool_iff in Heq. congruence. }
    destruct Hin as [-> | Hin]; [exfalso; apply Hne; reflexivity |].
    destruct (IH Hin) as (i & y & Hidx & Hnth & Hy & Hfirst).
    exists (S i), y. rewrite Hidx. repeat split; auto.
    intros [|j] z Hj Hz; simpl in Hz.
    + injection Hz as <-. exact Hne.
    + apply (Hfirst j z); [lia | exact Hz].
Qed.

(** The three lookups of [crag_process] on a non-empty retrieval. *)
Lemma best_document_lookup (f : string -> Q) (docs : list string) :
  docs <> [] ->
  exists m i best_doc,
    py_max (map f docs) = Returns m /\
    list_index (map f docs) m = Returns i /\
    list_getitem docs i = Returns best_doc /\
    nth_error docs i = Some best_doc /\
    f best_doc == m /\
    (forall d, In d docs -> f d <= m) /\
    (forall j d, (j < i)%nat -> nth_error docs j = Some d -> f d < m).
Proof.
  intro Hne.
  assert (Hne' : map f docs <> []) by (destruct docs; [congruence | discriminate]).
  destruct (py_max_spec _ Hne') as (m & Hmax & Hin & Hup).
  destruct (list_index_spec _ _ Hin) as (i & y & Hidx & Hnth & Hy & Hfirst).
  rewrite nth_error_map in Hnth.
  destruct (nth_error docs i) as [best_doc|] eqn:Hbest; [| discriminate].
  simpl in Hnth. injection Hnth as Hfy.
  exists m, i, best_doc.
  split; [exact Hmax | split; [exact Hidx | split; [| split; [exact Hbest | split]]]].
  - unfold list_getitem. now rewrite Hbest.
  - rewrite Hfy. exact Hy.
  - split.
    + intros d Hd. apply Hup. now apply in_map.
    + intros j d Hj Hd.
      assert (Hle : f d <= m) by (apply Hup, in_map; eapply nth_error_In; eauto).
      assert (Hneq : ~ f d == m).
      { apply (Hfirst j (f d) Hj). rewrite nth_error_map, Hd. reflexivity. }
      apply Qle_lt_or_eq in Hle. destruct Hle as [Hlt | Heq]; [exact Hlt | contradiction].
Qed.



(** * The feedback-loop notebook *)

Lemma for_each_returns {A B : Type} (f : A -> outcome B) (g : A -> B) (l : list A) :
  (forall x, In x l -> f x = Returns (g x)) -> for_each f l = Returns (map g l).
Proof.
  induction l as [|x l IH]; intro H; simpl; [reflexivity |].
  rewrite (H x) by now left. simpl.
  rewrite IH by (intros y Hy; apply H; now right). reflexivity.
Qed.

Lemma dict_get_key_error (d : list (string * Q)) (key : string) (e : py_exception) :
  dict_get d key = Throws e -> e = KeyError key.
Proof.
  induction d as [|[k v] d IH]; simpl; intro H.
  - now injection H as <-.
  - destruct (String.eqb k key); [discriminate | now apply IH].
Qed.

Lemma dict_get_set_same (d : list (string * Q)) (key : string) (v : Q) :
  dict_get (dict_set d key v) key = Returns v.
Proof.
  induction d as [|[k v'] d IH]; simpl.
  - now rewrite String.eqb_refl.
  - destruct (String.eqb k key) eqn:E; simpl; now rewrite E.
Qed.

Lemma dict_get_set_other (d : list (string * Q)) (key key' : string) (v : Q) :
  key' <> key -> dict_get (dict_set d key v) key' = dict_get d key'.
Proof.
  intro Hne. induction d as [|[k v'] d IH]; simpl.
  - destruct (String.eqb key key') eqn:E; [| reflexivity].
    apply String.eqb_eq in E. congruence.
  - destruct (String.eqb k key) eqn:E; simpl.
    + apply String.eqb_eq in E. subst k.
      destruct (String.eqb key key') eqn:E'; [| reflexivity].
      apply String.eqb_eq in E'. congruence.
    + now rewrite IH.
Qed.

Lemma relevance_of_spec (doc : RatedDocument) (v : Q) :
  dict_get (rated_metadata doc) relevance_key = Returns v -> relevance_of doc = v.
Proof.
  intro H. unfold relevance_of. now rewrite H.
Qed.

Lemma no_relevant_feedback
    (relevance_chain : string -> string -> string -> string -> string)
    (query : string) (doc : RatedDocument) (feedback_data : list Feedback) :
  (forall feedback, In feedback feedback_data ->
     relevance_chain query (fb_query feedback)
       (substring 0 1000 (rated_page_content doc)) (fb_response feedback)
     <> "yes"%string) ->
  relevant_feedback_for relevance_chain query doc feedback_data = [].
Proof.
  intro H. unfold relevant_feedback_for.
  induction feedback_data as [|f l IH]; simpl; [reflexivity |].
  destruct (String.eqb _ "yes") eqn:E.
  - apply String.eqb_eq in E. exfalso. apply (H f); [now left | exact E].
  - apply IH. intros g Hg. apply H. now right.
Qed.

(** X15.  Only the exact answer "yes" makes a feedback entry count.  When
    the chain gives any other answer for every document and entry (as it does
    when it answers "Yes" or "No") and every document has a relevance score,
    [adjust_relevance_scores] changes no score: it returns the same
    documents, sorted by descending relevance score, documents with equal
    scores in their given order. *)
Theorem feedback_counts_only_on_lowercase_yes
    (relevance_chain : string -> string -> string -> string -> string)
    (query : string) (docs : list RatedDocument) (feedback_data : list Feedback) :
  (forall doc feedback, In doc docs -> In feedback feedback_data ->
     relevance_chain query (fb_query feedback)
       (substring 0 1000 (rated_page_content doc)) (fb_response feedback)
     <> "yes"%string) ->
  (forall doc, In doc docs ->
     exists v, dict_get (rated_metadata doc) relevance_key = Returns v) ->
  exists ranked,
    adjust_relevance_scores relevance_chain query docs feedback_data = Returns ranked /\
    Permutation ranked docs /\
    reranked_selection docs (map relevance_of docs) (length docs) ranked.
Proof.
  intros Hno Hkey. unfold adjust_relevance_scores.
  rewrite (for_each_returns _ (fun doc => doc)).
  2:{ intros doc Hdoc. unfold adjust_document.
      rewrite no_relevant_feedback; [reflexivity |].
      intros f Hf. now apply Hno. }
  rewrite map_id. simpl.
  rewrite (for_each_returns _ relevance_of).
  2:{ intros doc Hdoc. destruct (Hkey doc Hdoc) as [v Hv].
      now rewrite (relevance_of_spec doc v Hv). }
  simpl. eexists. split; [reflexivity | split].
  - apply Permutation_trans with (map fst (combine docs (map relevance_of docs))).
    + apply Permutation_map, sorted_reverse_perm.
    + rewrite map_fst_combine_same_length by now rewrite length_map.
      reflexivity.
  - pose proof (rerank_core docs (map relevance_of docs)
                  (Z.of_nat (length docs)) (Zle_0_nat _)) as H.
    rewrite length_map, Nat.min_id, Nat2Z.id, Nat.min_id in H.
    unfold slice_to in H. rewrite (proj2 (Z.leb_le 0 _) (Zle_0_nat _)) in H.
    rewrite firstn_all2 in H; [exact H |].
    rewrite Nat2Z.id, (Permutation_length (sorted_reverse_perm _)), length_combine,
      length_map. lia.
Qed.

Lemma feedback_counts_only_on_lowercase_yes_witness :
  exists ranked,
    adjust_relevance_scores (fun _ _ _ _ => "Yes"%string) "query"
      [rated_a; rated_b] [praise] = Returns ranked /\
    Permutation ranked [rated_a; rated_b] /\
    reranked_selection [rated_a; rated_b] (map relevance_of [rated_a; rated_b])
      (length [rated_a; rated_b]) ranked.
Proof.
  apply (feedback_counts_only_on_lowercase_yes
           (fun _ _ _ _ => "Yes"%string) "query" [rated_a; rated_b] [praise]).
  - intros doc feedback _ _. discriminate.
  - intros doc [<- | [<- | []]]; eexists; reflexivity.
Defined.

Lemma adjust_document_cases
    (relevance_chain : string -> string -> string -> string -> string)
    (query : string) (feedback_data : list Feedback) (doc : RatedDocument) :
  adjust_document relevance_chain query feedback_data doc
    = Throws (KeyError relevance_key) \/
  exists doc',
    adjust_document relevance_chain query feedback_data doc = Returns doc' /\
    (dict_get (rated_metadata doc) relevance_key = Throws (KeyError relevance_key) ->
     doc' = doc).
Proof.
  unfold adjust_document.
  destruct (relevant_feedback_for relevance_chain query doc feedback_data) as [|f l].
  - right. exists doc. split; [reflexivity | trivial].
  - destruct (dict_get (rated_metadata doc) relevance_key) as [old|e] eqn:E; simpl.
    + right. eexists. split; [reflexivity | discriminate].
    + left. now rewrite (dict_get_key_error _ _ _ E).
Qed.

(** X16.  A document without the metadata key "relevance_score" makes
    [adjust_relevance_scores] raise KeyError, whatever the chain answers and
    whatever the feedback: at the update of the score, or else at the final
    sort. *)
Theorem missing_relevance_score_raises_key_error
    (relevance_chain : string -> string -> string -> string -> string)
    (query : string) (docs : list RatedDocument) (feedback_data : list Feedback)
    (doc : RatedDocument) :
  In doc docs ->
  dict_get (rated_metadata doc) relevance_key = Throws (KeyError relevance_key) ->
  adjust_relevance_scores relevance_chain query docs feedback_data
    = Throws (KeyError relevance_key).
Proof.
  intros Hin Hmiss. unfold adjust_relevance_scores.
  assert (Hloop :
    for_each (adjust_document relevance_chain query feedback_data) docs
      = Throws (KeyError relevance_key) \/
    exists adjusted,
      for_each (adjust_document relevance_chain query feedback_data) docs
        = Returns adjusted /\ In doc adjusted).
  { clear - Hin Hmiss. induction docs as [|d docs IH]; [contradiction |].
    simpl.
    destruct (adjust_document_cases relevance_chain query feedback_data d)
      as [Hthrow | (d' & Hret & Hsame)].
    - left. now rewrite Hthrow.
    - rewrite Hret. simpl. destruct Hin as [-> | Hin].
      + rewrite (Hsame Hmiss) in *.
        destruct (for_each _ docs) as [adjusted|e] eqn:E; simpl.
        * right. exists (doc :: adjusted). split; [reflexivity | now left].
        * left. clear - E. revert e E.
          induction docs as [|x docs IHd]; simpl; intros e E; [discriminate |].
          destruct (adjust_document_cases relevance_chain query feedback_data x)
            as [Hthrow | (x' & Hret & _)].
          -- rewrite Hthrow in E. simpl in E. congruence.
          -- rewrite Hret in E. simpl in E.
             destruct (for_each _ docs) as [ys|e'] eqn:E'; simpl in E; [discriminate |].
             injection E as <-. now apply IHd.
      + destruct (IH Hin) as [Hthrow | (adjusted & Hadj & Hdoc)].
        * left. now rewrite Hthrow.
        * right. rewrite Hadj. simpl. exists (d' :: adjusted).
          split; [reflexivity | now right]. }
  destruct Hloop as [-> | (adjusted & -> & Hdoc)]; [reflexivity |].
  simpl.
  assert (Hkeys : for_each (fun x => dict_get (rated_metadata x) relevance_key) adjusted
                  = Throws (KeyError relevance_key)).
  { clear - Hdoc Hmiss. induction adjusted as [|x l IH]; [contradiction |].
    simpl. destruct (dict_get (rated_metadata x) relevance_key) as [v|e] eqn:E; simpl.
    - destruct Hdoc as [-> | Hdoc]; [congruence |].
      now rewrite (IH Hdoc).
    - now rewrite (dict_get_key_error _ _ _ E). }
  now rewrite Hkeys.
Qed.

Lemma missing_relevance_score_raises_key_error_witness :
  adjust_relevance_scores (fun _ _ _ _ => "No"%string) "query"
    [rated_a; rated_c] [praise] = Throws (KeyError relevance_key).
Proof.
  apply (missing_relevance_score_raises_key_error
           (fun _ _ _ _ => "No"%string) "query" [rated_a; rated_c] [praise] rated_c).
  - right. now left.
  - reflexivity.
Defined.

Lemma sum_of_neutral_relevance (l : list Feedback) :
  Forall (fun f => fb_relevance f = 3%Z) l ->
  forall acc, fold_left Z.add (map fb_relevance l) acc
              = (acc + 3 * Z.of_nat (length l))%Z.
Proof.
  induction 1 as [|f l Hf _ IH]; intro acc; simpl fold_left.
  - simpl. lia.
  - rewrite IH, Hf. simpl length. lia.
Qed.

(** X17.  The update of one document in the loop of
    [adjust_relevance_scores].  When at least one feedback entry is declared
    relevant and the document has a relevance score, the score is multiplied
    by a third of the average relevance rating of the relevant entries; the
    text and the other metadata keys stay as they are.  A rating of 3 is
    neutral: an average above 3 raises a positive score, an average below 3
    lowers it, and ratings that are all 3 leave it unchanged. *)
Theorem relevant_feedback_scales_the_score
    (relevance_chain : string -> string -> string -> string -> string)
    (query : string) (feedback_data : list Feedback) (doc : RatedDocument) (old : Q) :
  relevant_feedback_for relevance_chain query doc feedback_data <> [] ->
  dict_get (rated_metadata doc) relevance_key = Returns old ->
  exists doc' avg,
    avg = avg_relevance (relevant_feedback_for relevance_chain query doc feedback_data) /\
    adjust_document relevance_chain query feedback_data doc = Returns doc' /\
    rated_page_content doc' = rated_page_content doc /\
    dict_get (rated_metadata doc') relevance_key = Returns (old * (avg / 3)) /\
    (forall key, key <> relevance_key ->
       dict_get (rated_metadata doc') key = dict_get (rated_metadata doc) key) /\
    (0 < old -> 3 < avg -> old < old * (avg / 3)) /\
    (0 < old -> avg < 3 -> old * (avg / 3) < old) /\
    (Forall (fun f => fb_relevance f = 3%Z)
       (relevant_feedback_for relevance_chain query doc feedback_data) ->
     old * (avg / 3) == old).
Proof.
  intros Hrel Hold. unfold adjust_document.
  destruct (relevant_feedback_for relevance_chain query doc feedback_data)
    as [|f l] eqn:E; [congruence |].
  rewrite Hold. simpl and_then.
  eexists. exists (avg_relevance (f :: l)).
  split; [reflexivity | split; [reflexivity | split; [reflexivity |]]].
  split; [apply dict_get_set_same | split; [| split; [| split]]].
  - intros key Hkey. simpl. now apply dict_get_set_other.
  - intros Hpos Havg. set (a := avg_relevance (f :: l)) in *.
    assert (H : old * 1 < old * (a / 3)).
    { apply Qmult_lt_l; [exact Hpos |]. apply Qlt_shift_div_l; lra. }
    lra.
  - intros Hpos Havg. set (a := avg_relevance (f :: l)) in *.
    assert (H : old * (a / 3) < old * 1).
    { apply Qmult_lt_l; [exact Hpos |]. apply Qlt_shift_div_r; lra. }
    lra.
  - intro Hall. unfold avg_relevance.
    rewrite (sum_of_neutral_relevance _ Hall).
    set (n := Z.of_nat (length (f :: l))).
    assert (Hn : (0 < n)%Z) by (unfold n; simpl length; lia).
    replace (0 + 3 * n)%Z with (3 * n)%Z by lia.
    rewrite inject_Z_mult.
    assert (Hlen : ~ inject_Z n == 0).
    { unfold Qeq. simpl. lia. }
    change (inject_Z 3) with 3. field. exact Hlen.
Qed.

Lemma relevant_feedback_scales_the_score_witness :
  exists doc' avg,
    avg = avg_relevance
            (relevant_feedback_for (fun _ _ _ _ => "yes"%string) "query" rated_a [praise]) /\
    adjust_document (fun _ _ _ _ => "yes"%string) "query" [praise] rated_a = Returns doc' /\
    rated_page_content doc' = rated_page_content rated_a /\
    dict_get (rated_metadata doc') relevance_key = Returns ((1 # 2) * (avg / 3)) /\
    (forall key, key <> relevance_key ->
       dict_get (rated_metadata doc') key = dict_get (rated_metadata rated_a) key) /\
    (0 < 1 # 2 -> 3 < avg -> 1 # 2 < (1 # 2) * (avg / 3)) /\
    (0 < 1 # 2 -> avg < 3 -> (1 # 2) * (avg / 3) < 1 # 2) /\
    (Forall (fun f => fb_relevance f = 3%Z)
       (relevant_feedback_for (fun _ _ _ _ => "yes"%string) "query" rated_a [praise]) ->
     (1 # 2) * (avg / 3) == 1 # 2).
Proof.
  apply (relevant_feedback_scales_the_score
           (fun _ _ _ _ => "yes"%string) "query" [praise] rated_a (1 # 2)).
  - discriminate.
  - reflexivity.
Defined.

Lemma append_empty_r (s : string) : (s ++ EmptyString)%string = s.
Proof.
  induction s as [|c s IH]; simpl; [reflexivity | now rewrite IH].
Qed.

Lemma prefix_append (s t : string) : prefix s (s ++ t) = true.
Proof.
  induction s as [|c s IH]; simpl; [destruct t; reflexivity |].
  destruct (ascii_dec c c); [exact IH | congruence].
Qed.

(** X18.  [fine_tune_index] encodes the original text followed, without a
    separator, by the good feedback: the entries rated at least 4 for
    relevance and at least 4 for quality.  The original text is always a
    prefix of what is encoded; when no entry is good on both scales, the new
    index is the index of the original text; one good entry appends its query,
    a space and its response. *)
Theorem fine_tune_index_appends_good_feedback {Index : Type}
    (encode_from_string : string -> Index)
    (feedback_data : list Feedback) (texts : string) :
  prefix texts (fine_tune_texts feedback_data texts) = true /\
  ((forall f, In f feedback_data -> (fb_relevance f < 4)%Z \/ (fb_quality f < 4)%Z) ->
     fine_tune_index encode_from_string feedback_data texts
       = encode_from_string texts) /\
  (forall f, (4 <= fb_relevance f)%Z -> (4 <= fb_quality f)%Z ->
     fine_tune_index encode_from_string [f] texts
       = encode_from_string (texts ++ fb_query f ++ " " ++ fb_response f)%string).
Proof.
  split; [apply prefix_append | split].
  - intro Hbad. unfold fine_tune_index, fine_tune_texts.
    assert (Hnone : filter (fun f => (4 <=? fb_relevance f)%Z && (4 <=? fb_quality f)%Z)
                           feedback_data = []).
    { induction feedback_data as [|f l IH]; simpl; [reflexivity |].
      destruct (Hbad f (or_introl eq_refl)) as [H | H].
      - apply Z.leb_gt in H. rewrite H. simpl.
        apply IH. intros g Hg. apply Hbad. now right.
      - apply Z.leb_gt in H. rewrite H, andb_false_r.
        apply IH. intros g Hg. apply Hbad. now right. }
    rewrite Hnone. simpl. now rewrite append_empty_r.
  - intros f Hr Hq. unfold fine_tune_index, fine_tune_texts. simpl.
    apply Z.leb_le in Hr, Hq. rewrite Hr, Hq. reflexivity.
Qed.

Lemma fine_tune_index_appends_good_feedback_witness :
  fine_tune_index (fun s => String.length s)
    [get_user_feedback "q" "r" 5 3 EmptyString] "abc" = 3%nat /\
  fine_tune_index (fun s => String.length s) [praise] "abc"
    = String.length ("abc" ++ fb_query praise ++ " " ++ fb_response praise)%string.
Proof.
  split.
  - apply (fine_tune_index_appends_good_feedback (fun s => String.length s)
             [get_user_feedback "q" "r" 5 3 EmptyString] "abc").
    intros f [<- | []]. right. simpl. lia.
  - apply (proj2 (proj2 (fine_tune_index_appends_good_feedback
                           (fun s => String.length s) [] "abc")) praise);
      simpl; lia.
Defined.

(** * The cells around [fusion_retrieval] *)

(** X10.  The notebook builds the FAISS store and the BM25 index from the
    same cleaned chunks: the store inside
    [encode_pdf_and_get_split_documents], the index by [create_bm25_index]
    on the chunks that function returns.  When there is at least one chunk
    (and the embedding gives one distance per chunk), [all_docs] is a
    permutation of the chunks and [fusion_retrieval] raises for no query, no
    [alpha] and no [k >= 0]: it returns [min(k, n)] of the chunks. *)
Theorem notebook_indexes_never_raise
    (load : string -> list Document)
    (split_documents : nat -> nat -> list Document -> list Document)
    (replace_t_with_space : list Document -> list Document)
    (distance : list Document -> string -> list Q)
    (okapi : list (list string) -> list string -> list string -> Q)
    (path : string) (chunk_size chunk_overlap : nat)
    (query : string) (k : Z) (alpha : Q)
    (vectorstore : VectorStore) (cleaned_texts : list Document) :
  encode_pdf_and_get_split_documents load split_documents replace_t_with_space
    distance path chunk_size chunk_overlap = (vectorstore, cleaned_texts) ->
  cleaned_texts <> [] ->
  (forall q, length (distance cleaned_texts q) = length cleaned_texts) ->
  (0 <= k)%Z ->
  Permutation (all_docs_of vectorstore) cleaned_texts /\
  exists docs,
    fusion_retrieval vectorstore (create_bm25_index okapi cleaned_texts)
      query k alpha = Ok docs /\
    length docs = Nat.min (Z.to_nat k) (length cleaned_texts) /\
    Forall (fun d => In d cleaned_texts) docs.
Proof.
  unfold encode_pdf_and_get_split_documents. intro Henc.
  injection Henc as <- <-. intros Hne Hdist Hk.
  now apply faiss_and_bm25_over_one_list.
Qed.

Lemma notebook_indexes_never_raise_witness :
  Permutation (all_docs_of example_store) example_docs /\
  exists docs,
    fusion_retrieval example_store (create_bm25_index token_overlap example_docs)
      "wind" 5 (1 # 2) = Ok docs /\
    length docs = Nat.min (Z.to_nat 5) (length example_docs) /\
    Forall (fun d => In d example_docs) docs.
Proof.
  apply (notebook_indexes_never_raise
           (fun _ => example_docs) (fun _ _ l => l) (fun l => l)
           (fun _ => example_distance) token_overlap
           "data/Understanding_Climate_Change.pdf" 1000 200 "wind" 5 (1 # 2)
           example_store example_docs).
  - reflexivity.
  - discriminate.
  - intro q. unfold example_distance. destruct (String.eqb q EmptyString); reflexivity.
  - lia.
Defined.

(** * The adaptive-retrieval notebook *)

(** X19.  [FactualRetrievalStrategy.retrieve] returns at most [k] of the
    candidates retrieved for the rewritten query (as many as there are, up to
    [k]), taken at different positions, in descending order of the score the
    ranking chain gives them for the rewritten query, equal scores in
    retrieval order. *)
Theorem factual_retrieve_is_a_stable_selection (enhance : string -> string)
    (ranking_score : string -> string -> Q) (db : VectorStore)
    (query : string) (k : nat) :
  reranked_selection
    (similarity_search db (enhance query) (k * 2))
    (map (fun doc => ranking_score (enhance query) (page_content doc))
         (similarity_search db (enhance query) (k * 2)))
    (Nat.min k (length (similarity_search db (enhance query) (k * 2))))
    (factual_retrieve enhance ranking_score db query k).
Proof.
  unfold factual_retrieve.
  rewrite (combine_map_self
             (fun doc => ranking_score (enhance query) (page_content doc))).
  pose proof (rerank_core (similarity_search db (enhance query) (k * 2))
                (map (fun doc => ranking_score (enhance query) (page_content doc))
                     (similarity_search db (enhance query) (k * 2)))
                (Z.of_nat k) (Zle_0_nat _)) as H.
  now rewrite length_map, Nat.min_id, Nat2Z.id in H.
Qed.

(** * The ranking step, whatever the order of equal scores *)

Lemma StronglySorted_app_between {A : Type} (R : A -> A -> Prop) (l1 l2 : list A) :
  StronglySorted R (l1 ++ l2) ->
  forall x y, In x l1 -> In y l2 -> R x y.
Proof.
  induction l1 as [|a l1 IH]; simpl; intros Hs x y Hx Hy; [contradiction |].
  inversion Hs as [|? ? Hs' Hall]; subst.
  destruct Hx as [<- | Hx].
  - rewrite Forall_forall in Hall. apply Hall, in_or_app. now right.
  - now apply IH.
Qed.

Lemma stable_argsort_meets_the_contract : argsort_contract argsort.
Proof.
  intro a. split; [apply argsort_perm |].
  apply (StronglySorted_weaken (fun i j => ranks_before a j i)).
  - intros i j _ _. apply ranks_before_descending.
  - apply argsort_sorted.
Qed.

Lemma score_of_opposite (a : ndarray) (i : nat) :
  score (map Qopp a) i = - score a i.
Proof.
  unfold score. exact (map_nth Qopp a 0 i).
Qed.

Lemma argsort_ties_descending_meets_the_contract :
  argsort_contract argsort_ties_descending.
Proof.
  intro a. unfold argsort_ties_descending. split.
  - rewrite <- Permutation_rev.
    rewrite <- (length_map Qopp a). apply argsort_perm.
  - apply (StronglySorted_weaken (fun i j => ranks_before (map Qopp a) i j)).
    + intros i j _ _ H. apply ranks_before_descending in H.
      rewrite !score_of_opposite in H. lra.
    + apply (StronglySorted_rev (fun i j => ranks_before (map Qopp a) j i)).
      apply argsort_sorted.
Qed.

Lemma fusion_rank_is_the_stable_instance (all_docs : list Document)
    (v b : ndarray) (k : Z) (alpha : Q) :
  fusion_rank all_docs v b k alpha = fusion_rank_with argsort all_docs v b k alpha.
Proof. reflexivity. Qed.

(** Two sorts that both keep numpy's promise return two tied documents in
    opposite orders. *)
Lemma tie_order_depends_on_the_sort :
  fusion_rank_with argsort [solar; turbines] [1; 1] [0; 0] 2 (1 # 2)
    = Ok [turbines; solar] /\
  fusion_rank_with argsort_ties_descending [solar; turbines] [1; 1] [0; 0] 2 (1 # 2)
    = Ok [solar; turbines].
Proof.
  split; reflexivity.
Qed.

Lemma top_indices_with_spec (np_argsort : ndarray -> list nat) (c : ndarray) (k : Z) :
  argsort_contract np_argsort ->
  length (top_indices_with np_argsort c k) = slice_length (length c) k /\
  NoDup (top_indices_with np_argsort c k) /\
  Forall (fun i => (i < length c)%nat) (top_indices_with np_argsort c k) /\
  StronglySorted (fun i j => score c j <= score c i) (top_indices_with np_argsort c k) /\
  (forall i j, In i (top_indices_with np_argsort c k) -> (j < length c)%nat ->
     ~ In j (top_indices_with np_argsort c k) -> score c j <= score c i).
Proof.
  intro Hcontract. destruct (Hcontract c) as [Hperm Hsorted].
  assert (Hperm' : Permutation (rev (np_argsort c)) (seq 0 (length c))).
  { now rewrite <- Permutation_rev. }
  assert (Hdesc : StronglySorted (fun i j => score c j <= score c i) (rev (np_argsort c))).
  { apply (StronglySorted_rev (fun i j => score c i <= score c j)). exact Hsorted. }
  unfold top_indices_with. split.
  { rewrite slice_to_length. f_equal.
    rewrite (Permutation_length Hperm'). apply length_seq. }
  destruct (slice_to_firstn (rev (np_argsort c)) k) as [m ->].
  set (ranked := rev (np_argsort c)) in *.
  assert (Hin : forall i, In i (firstn m ranked) -> In i ranked).
  { intros i Hi. rewrite <- (firstn_skipn m ranked). apply in_or_app. now left. }
  split; [| split; [| split]].
  - apply NoDup_firstn.
    apply (Permutation_NoDup (Permutation_sym Hperm')), seq_NoDup.
  - apply Forall_forall. intros i Hi.
    apply Hin, (Permutation_in _ Hperm'), in_seq in Hi. lia.
  - now apply StronglySorted_firstn.
  - intros i j Hi Hj Hout.
    assert (Hjr : In j ranked).
    { apply (Permutation_in _ (Permutation_sym Hperm')), in_seq. lia. }
    rewrite <- (firstn_skipn m ranked) in Hjr, Hdesc.
    apply in_app_or in Hjr. destruct Hjr as [Hjr | Hjr]; [contradiction |].
    exact (StronglySorted_app_between _ _ _ Hdesc i j Hi Hjr).
Qed.

(** C4, as the code has it.  For every sort that keeps numpy's promise for
    [np.argsort], on two score arrays of equal length [n], with one document
    per index and [k >= 1], the ranking step returns [min(k, n)] documents
    without raising (all [n] when [k > n]): the documents [all_docs[i]] of
    distinct indices [i], in descending order of combined score, and no
    document left out has a greater combined score than a returned one.
    Nothing is said on the order of documents with equal combined scores:
    it is the sort's. *)
Theorem ranking_top_k (np_argsort : ndarray -> list nat)
    (all_docs : list Document) (v b : ndarray) (k : Z) (alpha : Q) :
  argsort_contract np_argsort ->
  length v = length b -> length all_docs = length v -> (1 <= k)%Z ->
  exists c docs,
    combine_scores alpha v b = Ok c /\
    length c = length v /\
    fusion_rank_with np_argsort all_docs v b k alpha = Ok docs /\
    length docs = Nat.min (Z.to_nat k) (length v) /\
    Forall2 (fun i d => nth_error all_docs i = Some d)
            (top_indices_with np_argsort c k) docs /\
    NoDup (top_indices_with np_argsort c k) /\
    StronglySorted (fun i j => score c j <= score c i)
                   (top_indices_with np_argsort c k) /\
    (forall i j, In i (top_indices_with np_argsort c k) -> (j < length c)%nat ->
       ~ In j (top_indices_with np_argsort c k) -> score c j <= score c i).
Proof.
  intros Hcontract Hvb Hdocs Hk.
  pose proof (combine_scores_aligned alpha v b Hvb) as Hc.
  set (c := zip_with Qplus (np_scalar_mul alpha v) (np_scalar_mul (1 - alpha) b)) in *.
  assert (Hlen : length c = length v).
  { unfold c. rewrite zip_with_length; unfold np_scalar_mul; rewrite !length_map; auto. }
  destruct (top_indices_with_spec np_argsort c k Hcontract)
    as (Hcount & Hnd & Hlt & Hsorted & Htop).
  destruct (mapM_getitem_ok all_docs (top_indices_with np_argsort c k))
    as (docs & Hm & Hall).
  { now rewrite Hdocs, <- Hlen. }
  exists c, docs.
  split; [exact Hc | split; [exact Hlen | split; [| split; [| split]]]].
  - unfold fusion_rank_with. rewrite Hc. exact Hm.
  - rewrite <- (Forall2_length Hall), Hcount, Hlen. unfold slice_length.
    destruct (0 <=? k)%Z eqn:E; [reflexivity | apply Z.leb_gt in E; lia].
  - exact Hall.
  - split; [exact Hnd | split; [exact Hsorted | exact Htop]].
Qed.

Lemma ranking_top_k_witness :
  exists c docs,
    combine_scores (1 # 2) [1; 0; 1 # 2; 0] [0; 1; 1 # 2; 0] = Ok c /\
    length c = 4%nat /\
    fusion_rank_with argsort_ties_descending scenario_docs
      [1; 0; 1 # 2; 0] [0; 1; 1 # 2; 0] 9 (1 # 2) = Ok docs /\
    length docs = Nat.min (Z.to_nat 9) 4 /\
    Forall2 (fun i d => nth_error scenario_docs i = Some d)
            (top_indices_with argsort_ties_descending c 9) docs /\
    NoDup (top_indices_with argsort_ties_descending c 9) /\
    StronglySorted (fun i j => score c j <= score c i)
                   (top_indices_with argsort_ties_descending c 9) /\
    (forall i j, In i (top_indices_with argsort_ties_descending c 9) ->
       (j < length c)%nat ->
       ~ In j (top_indices_with argsort_ties_descending c 9) ->
       score c j <= score c i).
Proof.
  apply (ranking_top_k argsort_ties_descending scenario_docs
           [1; 0; 1 # 2; 0] [0; 1; 1 # 2; 0] 9 (1 # 2)).
  - exact argsort_ties_descending_meets_the_contract.
  - reflexivity.
  - reflexivity.
  - lia.
Defined.

(** * No validation of [alpha] and [k] *)

Lemma mapM_length {A B : Type} (f : A -> result B) (l : list A) :
  forall ys, mapM f l = Ok ys -> length ys = length l.
Proof.
  induction l as [|x l IH]; simpl; intros ys H.
  - now injection H as <-.
  - destruct (f x) as [y|e]; simpl in H; [| discriminate].
    destruct (mapM f l) as [ys'|e] eqn:E; simpl in H; [| discriminate].
    injection H as <-. simpl. f_equal. now apply IH.
Qed.

Lemma mapM_slice_to {A B : Type} (f : A -> result B) (l : list A) (ys : list B) (k : Z) :
  mapM f l = Ok ys -> mapM f (slice_to l k) = Ok (slice_to ys k).
Proof.
  intro H. unfold slice_to. rewrite (mapM_length f l ys H).
  destruct (0 <=? k)%Z; now apply mapM_firstn.
Qed.

(** One call on sequences of one length [n >= 1], step by step. *)
Lemma fusion_retrieval_steps (vectorstore : VectorStore) (bm25 : BM25Okapi)
    (query : string) (n : nat) (alpha : Q) :
  same_lengths vectorstore bm25 query n -> (1 <= n)%nat ->
  exists v b c,
    normalize_distance (map snd (similarity_search_with_score vectorstore query n))
      = Ok v /\
    normalize_similarity (get_scores bm25 (split query)) = Ok b /\
    combine_scores alpha v b = Ok c /\
    length c = n /\
    forall k, fusion_retrieval vectorstore bm25 query k alpha
              = mapM (getitem (all_docs_of vectorstore)) (top_indices c k).
Proof.
  intros (Hdocs & Hbm & Hvec) Hn.
  set (vs := map snd (similarity_search_with_score vectorstore query n)).
  assert (Hvs : length vs = n) by (unfold vs; now rewrite length_map).
  assert (Hv_ne : vs <> []) by (destruct vs; simpl in *; [lia | discriminate]).
  assert (Hb_ne : get_scores bm25 (split query) <> []).
  { destruct (get_scores bm25 (split query)); simpl in *; [lia | discriminate]. }
  destruct (normalize_lengths vs Hv_ne) as (_ & v & _ & Hv & _ & Hvlen).
  destruct (normalize_lengths _ Hb_ne) as (b & _ & Hb & _ & Hblen & _).
  assert (Hvb : length v = length b) by congruence.
  pose proof (combine_scores_aligned alpha v b Hvb) as Hc.
  exists v, b. eexists.
  split; [exact Hv | split; [exact Hb | split; [exact Hc | split]]].
  - rewrite zip_with_length; unfold np_scalar_mul; rewrite !length_map; congruence.
  - intro k. unfold fusion_retrieval. fold (all_docs_of vectorstore).
    rewrite Hdocs. fold vs. rewrite Hv, Hb. simpl.
    unfold fusion_rank. now rewrite Hc.
Qed.

(** C6, as the code has it.  [fusion_retrieval] does not check [alpha] or
    [k].  When the documents, the BM25 scores and the scored results of a
    call have the same length [n >= 1], the call returns a list of documents
    for every [alpha] and every integer [k], and the list is [ranked[:k]],
    where [ranked] is the full ranking: the [n] documents of [all_docs] in
    descending order of the scores combined with this [alpha], which is what
    the call returns for [k = n].  So the call returns the first [min(k, n)]
    ranked documents for [k >= 0] (none for [k = 0]) and the ranked documents
    but the last [-k] for [k < 0]. *)
Theorem no_validation_of_alpha_and_k (vectorstore : VectorStore) (bm25 : BM25Okapi)
    (query : string) (n : nat) (k : Z) (alpha : Q) :
  same_lengths vectorstore bm25 query n -> (1 <= n)%nat ->
  exists v b c ranked docs,
    normalize_distance (map snd (similarity_search_with_score vectorstore query n))
      = Ok v /\
    normalize_similarity (get_scores bm25 (split query)) = Ok b /\
    combine_scores alpha v b = Ok c /\
    Forall2 (fun i d => nth_error (all_docs_of vectorstore) i = Some d)
            (sorted_indices c) ranked /\
    StronglySorted (fun i j => score c j <= score c i) (sorted_indices c) /\
    Permutation ranked (all_docs_of vectorstore) /\
    fusion_retrieval vectorstore bm25 query (Z.of_nat n) alpha = Ok ranked /\
    fusion_retrieval vectorstore bm25 query k alpha = Ok docs /\
    docs = slice_to ranked k /\
    ((0 <= k)%Z -> docs = firstn (Nat.min (Z.to_nat k) n) ranked) /\
    ((k < 0)%Z -> docs = firstn (n - Z.to_nat (- k)) ranked) /\
    length docs = slice_length n k /\
    (k = 0%Z -> docs = []).
Proof.
  intros Hsame Hn.
  destruct (fusion_retrieval_steps _ _ _ _ alpha Hsame Hn)
    as (v & b & c & Hv & Hb & Hc & Hlen & Hcall).
  destruct Hsame as (Hdocs & _).
  pose proof (sorted_indices_perm c) as Hperm.
  destruct (mapM_getitem_ok (all_docs_of vectorstore) (sorted_indices c))
    as (ranked & Hranked & Hlook).
  { apply Forall_forall. intros i Hi.
    apply (Permutation_in _ Hperm), in_seq in Hi. lia. }
  assert (Hrlen : length ranked = n).
  { rewrite (mapM_length _ _ _ Hranked), (Permutation_length Hperm), length_seq.
    exact Hlen. }
  exists v, b, c, ranked, (slice_to ranked k).
  split; [exact Hv | split; [exact Hb | split; [exact Hc | split; [exact Hlook |]]]].
  split.
  { apply (StronglySorted_weaken (ranks_before c)).
    - intros i j _ _. apply ranks_before_descending.
    - apply sorted_indices_sorted. }
  split.
  { apply (lookup_permutation _ _ _ Hlook). now rewrite Hdocs, <- Hlen. }
  split.
  { rewrite Hcall, top_indices_all by (rewrite Hlen; lia). exact Hranked. }
  split.
  { rewrite Hcall. unfold top_indices. now apply mapM_slice_to. }
  split; [reflexivity |].
  unfold slice_to, slice_length. rewrite Hrlen.
  split; [| split; [| split]].
  - intro Hk. apply Z.leb_le in Hk. rewrite Hk.
    rewrite <- (firstn_firstn ranked). 
    rewrite (firstn_all2 (n:=n) ranked) by lia. reflexivity.
  - intro Hk. apply Z.leb_gt in Hk. now rewrite Hk.
  - destruct (0 <=? k)%Z; rewrite length_firstn, Hrlen; lia.
  - intros ->. reflexivity.
Qed.

Lemma no_validation_of_alpha_and_k_witness :
  exists v b c ranked docs,
    normalize_distance (map snd (similarity_search_with_score scenario_store "query" 4))
      = Ok v /\
    normalize_similarity (get_scores scenario_bm25 (split "query")) = Ok b /\
    combine_scores 3 v b = Ok c /\
    Forall2 (fun i d => nth_error (all_docs_of scenario_store) i = Some d)
            (sorted_indices c) ranked /\
    StronglySorted (fun i j => score c j <= score c i) (sorted_indices c) /\
    Permutation ranked (all_docs_of scenario_store) /\
    fusion_retrieval scenario_store scenario_bm25 "query" (Z.of_nat 4) 3 = Ok ranked /\
    fusion_retrieval scenario_store scenario_bm25 "query" (-1) 3 = Ok docs /\
    docs = slice_to ranked (-1) /\
    ((0 <= -1)%Z -> docs = firstn (Nat.min (Z.to_nat (-1)) 4) ranked) /\
    ((-1 < 0)%Z -> docs = firstn (4 - Z.to_nat (- -1)) ranked) /\
    length docs = slice_length 4 (-1) /\
    ((-1 = 0)%Z -> docs = []).
Proof.
  apply (no_validation_of_alpha_and_k scenario_store scenario_bm25 "query" 4 (-1) 3).
  - repeat split.
  - lia.
Defined.

(** * The range of the normalised and combined scores *)




(** X6.  The extremes of a normalised array.  The least raw score is
    attained and is sent to exactly 0 by the BM25 normalisation and to
    exactly 1 by the distance normalisation.  The greatest raw score is
    attained; it gets the greatest normalised BM25 score and the least
    normalised distance score of the array. *)
Theorem normalization_extremes (s : ndarray) :
  s <> [] ->
  exists lo hi sim dist,
    is_min lo s /\ is_max hi s /\
    normalize_similarity s = Ok sim /\ normalize_distance s = Ok dist /\
    (exists i, (i < length s)%nat /\ nth i s 0 = lo) /\
    (exists j, (j < length s)%nat /\ nth j s 0 = hi) /\
    (forall i, (i < length s)%nat -> nth i s 0 == lo ->
       nth i sim 0 == 0 /\ nth i dist 0 == 1) /\
    (forall j, (j < length s)%nat -> nth j s 0 == hi ->
       forall i, (i < length s)%nat ->
         nth i sim 0 <= nth j sim 0 /\ nth j dist 0 <= nth i dist 0).
Proof.
  intro Hne.
  destruct (normalize_unfold s Hne) as (lo & hi & Hmin & Hmax & Hsim & Hdist).
  pose proof (range_pos lo hi s Hmin Hmax) as Hd.
  exists lo, hi.
  exists (map (fun x => (x - lo) / (hi - lo + epsilon)) s).
  exists (map (fun x => 1 - (x - lo) / (hi - lo + epsilon)) s).
  split; [exact Hmin | split; [exact Hmax |]].
  split; [exact Hsim | split; [exact Hdist |]].
  split; [| split; [| split]].
  - destruct Hmin as [Hin _]. destruct (In_nth s lo 0 Hin) as (i & Hi & Hnth). eauto.
  - destruct Hmax as [Hin _]. destruct (In_nth s hi 0 Hin) as (j & Hj & Hnth). eauto.
  - intros i Hi Heq. rewrite !nth_map_score by assumption.
    assert (E : (nth i s 0 - lo) / (hi - lo + epsilon) == 0).
    { rewrite Heq. unfold Qdiv. ring. }
    rewrite E. split; [reflexivity | ring].
  - intros j Hj Heq i Hi. rewrite !nth_map_score by assumption.
    assert (Hle : nth i s 0 <= nth j s 0).
    { rewrite Heq. destruct Hmax as [_ Hup]. apply Hup. now apply nth_In. }
    apply (fraction_le_iff lo _ _ _ Hd) in Hle. split; [exact Hle | lra].
Qed.

Lemma normalization_extremes_witness :
  exists lo hi sim dist,
    is_min lo [3; 1; 2] /\ is_max hi [3; 1; 2] /\
    normalize_similarity [3; 1; 2] = Ok sim /\ normalize_distance [3; 1; 2] = Ok dist /\
    (exists i, (i < 3)%nat /\ nth i [3; 1; 2] 0 = lo) /\
    (exists j, (j < 3)%nat /\ nth j [3; 1; 2] 0 = hi) /\
    (forall i, (i < 3)%nat -> nth i [3; 1; 2] 0 == lo ->
       nth i sim 0 == 0 /\ nth i dist 0 == 1) /\
    (forall j, (j < 3)%nat -> nth j [3; 1; 2] 0 == hi ->
       forall i, (i < 3)%nat ->
         nth i sim 0 <= nth j sim 0 /\ nth j dist 0 <= nth i dist 0).
Proof.
  apply (normalization_extremes [3; 1; 2]). discriminate.
Defined.

(** * The cross-encoder retriever *)

(** X12.  [CrossEncoderRetriever.get_relevant_documents] pairs the retrieved
    documents with the predicted scores position by position, as far as the
    shorter of the two lists goes, and for [rerank_top_k >= 0] returns
    [min(rerank_top_k, number of pairs)] of the paired documents: documents
    at pairwise different positions that have a score, in descending order of
    predicted score, equal scores in retrieval order. *)
Theorem cross_encoder_is_a_stable_selection (self : CrossEncoderRetriever)
    (query : string) :
  (0 <= rerank_top_k self)%Z ->
  exists positions,
    length (cross_encoder_get_relevant_documents self query)
      = Nat.min (Z.to_nat (rerank_top_k self))
          (Nat.min (length (ce_initial_docs self query))
                   (length (ce_scores self query))) /\
    NoDup positions /\
    Forall (fun i => (i < Nat.min (length (ce_initial_docs self query))
                                  (length (ce_scores self query)))%nat) positions /\
    Forall2 (fun i d => nth_error (ce_initial_docs self query) i = Some d)
            positions (cross_encoder_get_relevant_documents self query) /\
    StronglySorted (reranks_before (ce_scores self query)) positions.
Proof.
  intro Htop.
  destruct (rerank_core_paired (ce_initial_docs self query) (ce_scores self query)
              (rerank_top_k self) Htop)
    as (positions & Hlen & Hnd & Hlook & Hsorted & Hbound).
  exists positions.
  split; [exact Hlen | split; [exact Hnd | split; [exact Hbound | split]]].
  - exact Hlook.
  - exact Hsorted.
Qed.

Lemma cross_encoder_is_a_stable_selection_witness :
  exists positions,
    length (cross_encoder_get_relevant_documents
              (mkCrossEncoderRetriever example_store (fun _ => [1; 1]) 3 5) "wind")
      = Nat.min (Z.to_nat 5) (Nat.min 3 2) /\
    NoDup positions /\
    Forall (fun i => (i < Nat.min 3 2)%nat) positions /\
    Forall2 (fun i d => nth_error (similarity_search example_store "wind" 3) i = Some d)
            positions
            (cross_encoder_get_relevant_documents
               (mkCrossEncoderRetriever example_store (fun _ => [1; 1]) 3 5) "wind") /\
    StronglySorted (reranks_before [1; 1]) positions.
Proof.
  apply (cross_encoder_is_a_stable_selection
           (mkCrossEncoderRetriever example_store (fun _ => [1; 1]) 3 5) "wind").
  simpl. lia.
Defined.

(** * [crag_process] without a web search *)

(** X13.  When the index returns no document, [crag_process] raises the
    ValueError of [max] on an empty list.  When some retrieved document is
    evaluated above 0.7, [crag_process] returns a response and consults
    neither the query rewriter, the search tool, the knowledge refinement nor
    [parse_search_results]: the response is the same for any two sets of
    services that give the same evaluation scores and the same generated
    responses. *)
Theorem crag_process_without_web_search (services services' : CragServices)
    (query : string) (faiss_index : VectorStore) :
  (similarity_search faiss_index query 3 = [] ->
   crag_process services query faiss_index = Throws ValueError_max_empty) /\
  ((exists d, In d (retrieve_documents query faiss_index 3) /\
              7 # 10 < retrieval_evaluator services query d) ->
   (forall d, retrieval_evaluator services' query d
              = retrieval_evaluator services query d) ->
   (forall known sources, generate_response services' query known sources
                          = generate_response services query known sources) ->
   exists response,
     crag_process services query faiss_index = Returns response /\
     crag_process services' query faiss_index = Returns response).
Proof.
  split.
  - intro H. unfold crag_process, retrieve_documents. rewrite H. reflexivity.
  - intros (d & Hd & Hscore) Heval Hgen.
    set (docs := retrieve_documents query faiss_index 3) in *.
    assert (Hne : docs <> []) by (destruct docs; [contradiction | discriminate]).
    destruct (best_document_lookup
                (fun doc => retrieval_evaluator services query doc) docs Hne)
      as (m & i & best_doc & Hmax & Hidx & Hget & _ & _ & Hup & _).
    assert (Hm : Qle_bool m (7 # 10) = false).
    { destruct (Qle_bool m (7 # 10)) eqn:E; [| reflexivity].
      apply Qle_bool_iff in E. pose proof (Hup d Hd) as Hle. simpl in Hle. lra. }
    assert (Hsame : evaluate_documents services' query docs
                    = evaluate_documents services query docs).
    { unfold evaluate_documents. apply map_ext. exact Heval. }
    exists (generate_response services query (Text best_doc) [retrieved_source]).
    unfold crag_process. fold docs. rewrite Hsame. unfold evaluate_documents.
    rewrite Hmax. simpl and_then. rewrite Hm. simpl negb. cbv iota.
    rewrite Hidx. simpl and_then. rewrite Hget. simpl and_then.
    split; [reflexivity | now rewrite Hgen].
Qed.

Lemma crag_process_without_web_search_witness :
  crag_process
    (mkCragServices (fun _ _ => 1) (fun _ => []) (fun q => q) (fun _ => EmptyString)
       (fun _ => []) (fun _ _ _ => EmptyString))
    "query" (faiss_store [] (fun _ => [])) = Throws ValueError_max_empty /\
  exists response,
    crag_process
      (mkCragServices (fun _ _ => 1) (fun _ => []) (fun q => q) (fun _ => EmptyString)
         (fun _ => []) (fun q _ _ => q))
      "query" example_store = Returns response /\
    crag_process
      (mkCragServices (fun _ _ => 1) (fun d => [d]) (fun q => EmptyString)
         (fun _ => "not a list"%string) (fun _ => [("t"%string, "l"%string)])
         (fun q _ _ => q))
      "query" example_store = Returns response.
Proof.
  split.
  - apply (crag_process_without_web_search
             (mkCragServices (fun _ _ => 1) (fun _ => []) (fun q => q)
                (fun _ => EmptyString) (fun _ => []) (fun _ _ _ => EmptyString))
             (mkCragServices (fun _ _ => 1) (fun _ => []) (fun q => q)
                (fun _ => EmptyString) (fun _ => []) (fun _ _ _ => EmptyString))
             "query" (faiss_store [] (fun _ => []))).
    reflexivity.
  - apply (crag_process_without_web_search
             (mkCragServices (fun _ _ => 1) (fun _ => []) (fun q => q)
                (fun _ => EmptyString) (fun _ => []) (fun q _ _ => q))
             (mkCragServices (fun _ _ => 1) (fun d => [d]) (fun q => EmptyString)
                (fun _ => "not a list"%string) (fun _ => [("t"%string, "l"%string)])
                (fun q _ _ => q))
             "query" example_store).
    + exists "wind and rain"%string. split; [vm_compute; auto | reflexivity].
    + reflexivity.
    + reflexivity.
Defined.
